(** * audiomate.processing.parallel: partition / dispatch / collect

    A shallow embedding of [ParallelProcessor.process_corpus] and
    [worker_process_utterances_task] (src/audiomate/processing/parallel.py),
    followed by the properties the specification states about them. *)

From stdpp Require Import gmap strings list fin_maps.
From Stdlib Require Import ZArith Lia.


(** ** Python primitives used by the module *)

(** Exceptions the two functions can raise.  [ValueError] carries its
    message; [IndexError] is the out-of-range list access; [KeyError] the
    failed dictionary access. *)
Inductive exn : Type :=
| ValueError (msg : string)
| IndexError
| KeyError (key : string).

(** [range(n)] for an integer [n]: empty when [n <= 0]. *)
Definition py_range (n : Z) : list Z :=
  Z.of_nat <$> seq 0 (Z.to_nat n).

(** An index of a slice, as CPython normalises it for a list of length
    [len]: a negative index counts from the end, and the result is clamped
    to [0 .. len]. *)
Definition slice_index (len i : Z) : Z :=
  if (i <? 0)%Z then Z.max 0 (len + i) else Z.min i len.

(** [l[start:stop]]. *)
Definition py_slice {A} (l : list A) (start stop : Z) : list A :=
  let len := Z.of_nat (length l) in
  let lo := Z.to_nat (slice_index len start) in
  let hi := Z.to_nat (slice_index len stop) in
  take (hi - lo) (drop lo l).

(** [int(a / b)]: true division followed by truncation toward zero.  The
    float quotient of two integers below 2^53 truncates to the integer
    quotient, and a list length is far below that bound, so the integer
    quotient is what the code computes. *)
Definition py_int_truediv (a b : Z) : Z := Z.quot a b.

(** [l[0]]. *)
Definition py_first {A} (l : list A) : exn + A :=
  match l with
  | [] => inl IndexError
  | x :: _ => inr x
  end.

(** [a or b] on an optional integer [a] ([None] and [0] are falsy). *)
Definition py_or (a : option Z) (b : Z) : Z :=
  match a with
  | None => b
  | Some x => if (x =? 0)%Z then b else x
  end.

(** ** Data model *)

(** What the module reads of an utterance: its [idx], its [sampling_rate]
    and the identifier of its file ([utterance.file.idx]). *)
Record Utterance : Type := mkUtterance {
  idx : string;
  sampling_rate : Z;
  file_idx : string
}.

(** [corpus.utterances]: a dictionary in insertion order. *)
Record Corpus : Type := mkCorpus {
  utterances : list (string * Utterance)
}.

(** [corpus.utterances.keys()]. *)
Definition keys (corpus : Corpus) : list string :=
  fst <$> utterances corpus.

Fixpoint assoc (key : string) (d : list (string * Utterance)) : option Utterance :=
  match d with
  | [] => None
  | (k, u) :: d' => if decide (k = key) then Some u else assoc key d'
  end.

(** [corpus.utterances[key]]. *)
Definition get_utterance (corpus : Corpus) (key : string) : exn + Utterance :=
  match assoc key (utterances corpus) with
  | Some u => inr u
  | None => inl (KeyError key)
  end.

(** A dictionary has no two entries under one key, and the corpus files
    every utterance under its own [idx]. *)
Definition corpus_wf (corpus : Corpus) : Prop :=
  NoDup (keys corpus) ∧
  Forall (λ kv, idx kv.2 = kv.1) (utterances corpus).

(** ** Partitioner (the loop header of [process_corpus], lines 36-53) *)

Definition utts_per_worker (utterance_ids : list string) (num_workers : Z) : Z :=
  py_int_truediv (Z.of_nat (length utterance_ids)) num_workers.

Definition utt_start_index (utterance_ids : list string) (num_workers i : Z) : Z :=
  (i * utts_per_worker utterance_ids num_workers)%Z.

Definition utt_end_index (utterance_ids : list string) (num_workers i : Z) : Z :=
  if (i =? num_workers - 1)%Z
  then Z.of_nat (length utterance_ids)
  else ((i + 1) * utts_per_worker utterance_ids num_workers)%Z.

(** The range of worker [i]. *)
Definition worker_utts (utterance_ids : list string) (num_workers i : Z) : list string :=
  py_slice utterance_ids
           (utt_start_index utterance_ids num_workers i)
           (utt_end_index utterance_ids num_workers i).

(** The ranges in the order the workers are created. *)
Definition worker_ranges (utterance_ids : list string) (num_workers : Z) : list (list string) :=
  worker_utts utterance_ids num_workers <$> py_range num_workers.

(** ** The output container *)

Module containers.

(** Modelled from the spec: [audiomate.containers.FeatureContainer], which
    is imported by the module but not part of it.  A keyed sink from
    identifier to feature array with [open], [set] and [close], and three
    settable scalar properties [frame_size], [hop_size] and
    [sampling_rate]; a write is final once [set] returns (a later [set]
    under the same key replaces the entry). *)
Record FeatureContainer (Feature : Type) : Type := mkFeatureContainer {
  path : string;
  is_open : bool;
  entries : gmap string Feature;
  frame_size : option Z;
  hop_size : option Z;
  sampling_rate : option Z
}.

Arguments mkFeatureContainer {Feature}.
Arguments path {Feature}.
Arguments is_open {Feature}.
Arguments entries {Feature}.
Arguments frame_size {Feature}.
Arguments hop_size {Feature}.
Arguments sampling_rate {Feature}.

Definition new {Feature} (p : string) : FeatureContainer Feature :=
  mkFeatureContainer p false ∅ None None None.

Definition open {Feature} (c : FeatureContainer Feature) : FeatureContainer Feature :=
  mkFeatureContainer (path c) true (entries c) (frame_size c) (hop_size c) (sampling_rate c).

Definition close {Feature} (c : FeatureContainer Feature) : FeatureContainer Feature :=
  mkFeatureContainer (path c) false (entries c) (frame_size c) (hop_size c) (sampling_rate c).

Definition set {Feature} (key : string) (feats : Feature)
    (c : FeatureContainer Feature) : FeatureContainer Feature :=
  mkFeatureContainer (path c) (is_open c) (<[key := feats]> (entries c))
                     (frame_size c) (hop_size c) (sampling_rate c).

Definition set_frame_size {Feature} (v : Z) (c : FeatureContainer Feature) : FeatureContainer Feature :=
  mkFeatureContainer (path c) (is_open c) (entries c) (Some v) (hop_size c) (sampling_rate c).

Definition set_hop_size {Feature} (v : Z) (c : FeatureContainer Feature) : FeatureContainer Feature :=
  mkFeatureContainer (path c) (is_open c) (entries c) (frame_size c) (Some v) (sampling_rate c).

Definition set_sampling_rate {Feature} (v : Z) (c : FeatureContainer Feature) : FeatureContainer Feature :=
  mkFeatureContainer (path c) (is_open c) (entries c) (frame_size c) (hop_size c) (Some v).

End containers.

(** ** The processor wrapped by [ParallelProcessor] *)

(** The two methods of [self.processor] the module calls.  Both are pure:
    [process_utterance utterance frame_size hop_size sr corpus] and
    [frame_transform frame_size hop_size]. *)
Record Processor (Feature : Type) : Type := mkProcessor {
  process_utterance : Utterance → Z → Z → option Z → Corpus → Feature;
  frame_transform : Z → Z → Z * Z
}.

Arguments mkProcessor {Feature}.
Arguments process_utterance {Feature}.
Arguments frame_transform {Feature}.

(** ** Worker ([worker_process_utterances_task], lines 98-130) *)

(** What a worker does that is visible outside its loop: a call of the
    processor with the arguments it passes, a record put on the result
    queue, and the closing of its end of the queue. *)
Inductive WorkerEvent (Feature : Type) : Type :=
| ProcessCall (utterance : Utterance) (frame_size hop_size : Z) (sr : option Z)
| Put (utt_idx : string) (data : Feature)
| QueueClose.

Arguments ProcessCall {Feature}.
Arguments Put {Feature}.
Arguments QueueClose {Feature}.

(** The message of the [ValueError] raised at line 116; the two literals
    are adjacent in the source, so no blank separates "sampling-rate" from
    "than". *)
Definition rate_error_message (file : string) : string :=
  "File " +:+ file +:+ " has a different sampling-ratethan the previous ones!".

(** Line 112: [utt_sampling_rate = utterance.sampling_rate]. *)
Definition utt_sampling_rate (utterance : Utterance) : Z :=
  sampling_rate utterance.

(** Lines 114-121: the check on the running [sampling_rate], returning
    its next value. *)
Definition check_sampling_rate (sr : option Z) (sampling_rate : Z)
    (utterance : Utterance) : exn + Z :=
  match sr with
  | None =>
      if (sampling_rate >? 0)%Z && negb (sampling_rate =? utt_sampling_rate utterance)%Z
      then inl (ValueError (rate_error_message (file_idx utterance)))
      else inr (utt_sampling_rate utterance)
  | Some _ => inr sampling_rate
  end.

Section Worker.
Context {Feature : Type}.
Variable processor : Processor Feature.
Variable corpus : Corpus.
Variables frame_size hop_size : Z.
Variable sr : option Z.

(** The [for] loop, entered with the current [sampling_rate]; on normal
    exit the queue is closed. *)
Fixpoint worker_loop (sampling_rate : Z) (utterances : list string)
    : list (WorkerEvent Feature) * option exn :=
  match utterances with
  | [] => ([QueueClose], None)
  | utterance_idx :: rest =>
      match get_utterance corpus utterance_idx with
      | inl e => ([], Some e)
      | inr utterance =>
          match check_sampling_rate sr sampling_rate utterance with
          | inl e => ([], Some e)
          | inr sampling_rate' =>
              let data := process_utterance processor utterance frame_size hop_size sr corpus in
              let '(events, raised) := worker_loop sampling_rate' rest in
              (ProcessCall utterance frame_size hop_size sr
                 :: Put (idx utterance) data :: events, raised)
          end
      end
  end.

End Worker.

Definition worker_process_utterances_task {Feature} (processor : Processor Feature)
    (utterances : list string) (corpus : Corpus) (frame_size hop_size : Z)
    (sr : option Z) : list (WorkerEvent Feature) * option exn :=
  worker_loop processor corpus frame_size hop_size sr (-1) utterances.

(** The records a worker put on the queue, in the order it put them. *)
Definition puts {Feature} (events : list (WorkerEvent Feature)) : list (string * Feature) :=
  omap (λ e, match e with Put k d => Some (k, d) | _ => None end) events.

(** The processor calls a worker made. *)
Definition calls {Feature} (events : list (WorkerEvent Feature))
    : list (Utterance * Z * Z * option Z) :=
  omap (λ e, match e with
             | ProcessCall u f h s => Some (u, f, h, s)
             | _ => None
             end) events.

(** ** Orchestrator ([ParallelProcessor.process_corpus], lines 26-95) *)

(** What the parent process does that is visible outside it, in program
    order. *)
Inductive Event (Feature : Type) : Type :=
| Start (i : Z) (worker_utts : list string)
| Create (output_path : string)
| Open
| Set_ (utt_idx : string) (feats : Feature)
| SetFrameSize (v : Z)
| SetHopSize (v : Z)
| SetSamplingRate (v : Z)
| Close
| Join (i : Z).

Arguments Start {Feature}.
Arguments Create {Feature}.
Arguments Open {Feature}.
Arguments Set_ {Feature}.
Arguments SetFrameSize {Feature}.
Arguments SetHopSize {Feature}.
Arguments SetSamplingRate {Feature}.
Arguments Close {Feature}.
Arguments Join {Feature}.

(** The parent's view of the world: the events so far, for each started
    worker the records it has still to deliver to the result queue, and
    the scheduler's choices, which settle the order in which records of
    different workers arrive. *)
Record World (Feature : Type) : Type := mkWorld {
  trace : list (Event Feature);
  pending : list (list (string * Feature));
  schedule : list nat
}.

Arguments mkWorld {Feature}.
Arguments trace {Feature}.
Arguments pending {Feature}.
Arguments schedule {Feature}.

(** How a computation of the parent stops short of its result: an
    exception, or a [result_queue.get()] that no worker will ever
    answer. *)
Inductive Stop : Type :=
| Raise (e : exn)
| Block.

Definition M (Feature A : Type) : Type :=
  World Feature → World Feature * (Stop + A).

Section Monad.
Context {Feature : Type}.

#[export] Instance M_ret : MRet (M Feature) := λ A a w, (w, inr a).

#[export] Instance M_bind : MBind (M Feature) :=
  λ A B f m w, match m w with
               | (w', inl s) => (w', inl s)
               | (w', inr a) => f a w'
               end.

Definition raise {A} (e : exn) : M Feature A := λ w, (w, inl (Raise e)).

Definition lift {A} (r : exn + A) : M Feature A :=
  match r with
  | inl e => raise e
  | inr a => mret a
  end.

Definition emit (e : Event Feature) : M Feature unit :=
  λ w, (mkWorld (trace w ++ [e]) (pending w) (schedule w), inr tt).

(** [for x in l: s = body(x, s)]. *)
Fixpoint for_ {X S} (l : list X) (body : X → S → M Feature S) (s : S) : M Feature S :=
  match l with
  | [] => mret s
  | x :: l' => body x s ≫= for_ l' body
  end.

End Monad.

Section Queue.
Context {R : Type}.

(** The next record of worker [i], if it has one to deliver. *)
Definition take_from (i : nat) (pending : list (list R)) : option (R * list (list R)) :=
  match pending !! i with
  | Some (x :: xs) => Some (x, <[i := xs]> pending)
  | _ => None
  end.

(** The next record of the first worker that has one to deliver. *)
Fixpoint first_ready (pending : list (list R)) : option (R * list (list R)) :=
  match pending with
  | [] => None
  | [] :: rest =>
      match first_ready rest with
      | Some (x, rest') => Some (x, [] :: rest')
      | None => None
      end
  | (x :: xs) :: rest => Some (x, xs :: rest)
  end.

(** One arrival: the scheduler's choice if that worker has a record to
    deliver, else the first worker that has; nothing when no worker has
    anything left. *)
Definition next_arrival (schedule : list nat) (pending : list (list R))
    : option (R * list (list R)) * list nat :=
  match schedule with
  | [] => (first_ready pending, [])
  | i :: schedule' =>
      (match take_from i pending with
       | Some r => Some r
       | None => first_ready pending
       end, schedule')
  end.

(** The first [n] arrivals under a schedule (fewer if the workers run
    out of records). *)
Fixpoint drain (n : nat) (schedule : list nat) (pending : list (list R)) : list R :=
  match n with
  | 0 => []
  | S n' =>
      match next_arrival schedule pending with
      | (Some (x, pending'), schedule') => x :: drain n' schedule' pending'
      | (None, _) => []
      end
  end.

(** The orders in which records of the workers can arrive: each worker's
    records in the order it put them, the workers interleaved freely. *)
Inductive interleaving : list (list R) → list R → Prop :=
| interleaving_nil pending : interleaving pending []
| interleaving_cons i pending x pending' q :
    take_from i pending = Some (x, pending') →
    interleaving pending' q →
    interleaving pending (x :: q).

End Queue.

Section Orchestrator.
Context {Feature : Type}.

(** [mp.Process(target=worker_process_utterances_task, args=...)] and
    [worker.start()]: the worker runs on its own, and what the parent can
    observe of it are the records it puts on the result queue. *)
Definition start_worker (i : Z) (worker_utts : list string)
    (run : list (WorkerEvent Feature) * option exn) : M Feature unit :=
  λ w, (mkWorld (trace w ++ [Start i worker_utts])
                (pending w ++ [puts run.1])
                (schedule w), inr tt).

(** [result_queue.get()]: blocks until a record arrives. *)
Definition queue_get : M Feature (string * Feature) :=
  λ w, match next_arrival (schedule w) (pending w) with
       | (Some (r, pending'), schedule') =>
           (mkWorld (trace w) pending' schedule', inr r)
       | (None, _) => (w, inl Block)
       end.

(** [worker.join()]: every worker terminates, so the call returns. *)
Definition join (i : Z) : M Feature unit := emit (Join i).

Definition container_new (output_path : string)
    : M Feature (containers.FeatureContainer Feature) :=
  emit (Create output_path);; mret (containers.new output_path).

Definition container_open (c : containers.FeatureContainer Feature)
    : M Feature (containers.FeatureContainer Feature) :=
  emit Open;; mret (containers.open c).

Definition container_set (utt_idx : string) (feats : Feature)
    (c : containers.FeatureContainer Feature)
    : M Feature (containers.FeatureContainer Feature) :=
  emit (Set_ utt_idx feats);; mret (containers.set utt_idx feats c).

Definition container_close (c : containers.FeatureContainer Feature)
    : M Feature (containers.FeatureContainer Feature) :=
  emit Close;; mret (containers.close c).

(** Lines 79-82: the forced rate, else the rate of the first utterance
    of the corpus. *)
Definition first_sampling_rate (corpus : Corpus) (utterance_ids : list string)
    (sr : option Z) : exn + Z :=
  match sr with
  | Some r => inr r
  | None =>
      match py_first utterance_ids with
      | inl e => inl e
      | inr first =>
          match get_utterance corpus first with
          | inl e => inl e
          | inr utterance => inr (utt_sampling_rate utterance)
          end
      end
  end.

Definition process_corpus (processor : Processor Feature) (corpus : Corpus)
    (output_path : string) (num_workers frame_size hop_size : Z) (sr : option Z)
    : M Feature (containers.FeatureContainer Feature) :=
  if (num_workers <? 2)%Z
  then raise (ValueError "Parallel processing needs at least 2 workers")
  else
    let utterance_ids := keys corpus in
    let num_utts := Z.of_nat (length utterance_ids) in
    workers ← for_ (py_range num_workers) (λ i workers,
        let worker_utts := worker_utts utterance_ids num_workers i in
        start_worker i worker_utts
          (worker_process_utterances_task processor worker_utts corpus
                                          frame_size hop_size sr);;
        mret (workers ++ [i])) [];
    feat_container ← container_new output_path;
    feat_container ← container_open feat_container;
    feat_container ← for_ (py_range num_utts) (λ _ feat_container,
        r ← queue_get;
        container_set r.1 r.2 feat_container) feat_container;
    sampling_rate ← lift (first_sampling_rate corpus utterance_ids sr);
    let '(tf_frame_size, tf_hop_size) := frame_transform processor frame_size hop_size in
    emit (SetFrameSize tf_frame_size);;
    emit (SetHopSize tf_hop_size);;
    emit (SetSamplingRate (py_or sr sampling_rate));;
    feat_container ← container_close
      (containers.set_sampling_rate (py_or sr sampling_rate)
        (containers.set_hop_size tf_hop_size
          (containers.set_frame_size tf_frame_size feat_container)));
    for_ workers (λ worker _, join worker) tt;;
    mret feat_container.

(** A call of [process_corpus] from a fresh world, under the given
    arrival schedule. *)
Definition run (processor : Processor Feature) (corpus : Corpus)
    (output_path : string) (num_workers frame_size hop_size : Z) (sr : option Z)
    (schedule : list nat)
    : World Feature * (Stop + containers.FeatureContainer Feature) :=
  process_corpus processor corpus output_path num_workers frame_size hop_size sr
                 (mkWorld [] [] schedule).

End Orchestrator.

(** ** Sample data *)

Module Samples.

(** A processor whose feature records the arguments it was called with,
    and whose [frame_transform] maps every framing to one frame per
    step, as a processor that pools each frame does. *)
Definition tagging : Processor (string * Z * Z * option Z) :=
  mkProcessor (λ utterance frame_size hop_size sr _,
                 (idx utterance, frame_size, hop_size, sr))
              (λ _ _, (1%Z, 1%Z)).

Definition utt (name : string) (rate : Z) : Utterance :=
  mkUtterance name rate ("file-" +:+ name).

Definition corpus_of (l : list (string * Z)) : Corpus :=
  mkCorpus ((λ p, (p.1, utt p.1 p.2)) <$> l).

Definition ten_ids : list string :=
  ["u0"; "u1"; "u2"; "u3"; "u4"; "u5"; "u6"; "u7"; "u8"; "u9"].

(** Ten utterances at 16 kHz. *)
Definition uniform10 : Corpus :=
  corpus_of ((λ k, (k, 16000%Z)) <$> ten_ids).

(** Three utterances at 16 kHz. *)
Definition uniform3 : Corpus :=
  corpus_of [("a", 16000%Z); ("b", 16000%Z); ("c", 16000%Z)].

(** The second utterance is at 8 kHz. *)
Definition mixed3 : Corpus :=
  corpus_of [("a", 16000%Z); ("b", 8000%Z); ("c", 16000%Z)].

(** The first utterance reports the rate 0. *)
Definition zero_first : Corpus :=
  corpus_of [("a", 0%Z); ("b", 16000%Z)].

(** The utterance before a change of rate reports the rate 0. *)
Definition zero_between : Corpus :=
  corpus_of [("a", 16000%Z); ("b", 0%Z); ("c", 8000%Z)].

Definition empty : Corpus := mkCorpus [].

(** A run over [uniform3] with two workers in which both records of
    the second worker arrive before the record of the first. *)
Definition late_first : World (string * Z * Z * option Z)
    * (Stop + containers.FeatureContainer (string * Z * Z * option Z)) :=
  run tagging uniform3 "out.hdf5" 2 400 160 None [1; 1; 0].

Definition late_first_container
    : containers.FeatureContainer (string * Z * Z * option Z) :=
  match late_first.2 with
  | inr c => c
  | inl _ => containers.new "out.hdf5"
  end.

End Samples.

(** ** Vocabulary of the specification *)

(** The specification's names for the two [ValueError]s of the module. *)
Definition ConfigurationError : exn :=
  ValueError "Parallel processing needs at least 2 workers".

Definition InconsistentSampleRateError (utterance : Utterance) : exn :=
  ValueError (rate_error_message (file_idx utterance)).

(** The part of [l] at the positions [a, b). *)
Definition span {A} (l : list A) (a b : nat) : list A :=
  take (b - a) (drop a l).

(** The effective sampling rate of an item as the specification defines
    it: the forced rate if there is one, else the item's own. *)
Definition effective_sampling_rate (sr : option Z) (utterance : Utterance) : Z :=
  match sr with
  | Some r => r
  | None => sampling_rate utterance
  end.

(** The record of an utterance: its identifier and its features. *)
Definition record {Feature} (processor : Processor Feature) (corpus : Corpus)
    (frame_size hop_size : Z) (sr : option Z) (utterance : Utterance)
    : string * Feature :=
  (idx utterance, process_utterance processor utterance frame_size hop_size sr corpus).

(** The [set] calls of a trace, in order. *)
Definition sets {Feature} (t : list (Event Feature)) : list (string * Feature) :=
  omap (λ e, match e with Set_ k d => Some (k, d) | _ => None end) t.

(** The run of the worker of each range. *)
Definition worker_runs {Feature} (processor : Processor Feature) (corpus : Corpus)
    (num_workers frame_size hop_size : Z) (sr : option Z)
    : list (list (WorkerEvent Feature) * option exn) :=
  (λ r, worker_process_utterances_task processor r corpus frame_size hop_size sr)
    <$> worker_ranges (keys corpus) num_workers.

(** The [Start] events of the workers, in order of creation. *)
Definition starts {Feature} (utterance_ids : list string) (num_workers : Z)
    : list (Event Feature) :=
  (λ i, Start i (worker_utts utterance_ids num_workers i)) <$> py_range num_workers.

(** The utterances a range of identifiers resolves to in the corpus. *)
Definition resolves (corpus : Corpus) (range : list string) (us : list Utterance) : Prop :=
  Forall2 (λ k u, get_utterance corpus k = inr u) range us.

(** The events of a worker that processes the utterances [us] without
    raising (the closing of the queue apart). *)
Definition processed {Feature} (processor : Processor Feature) (corpus : Corpus)
    (frame_size hop_size : Z) (sr : option Z) (us : list Utterance)
    : list (WorkerEvent Feature) :=
  us ≫= λ u, [ProcessCall u frame_size hop_size sr;
              Put (idx u) (process_utterance processor u frame_size hop_size sr corpus)].

(** ** Further sample data *)

Module MoreSamples.

(** Two utterances at different rates. *)
Definition two_rates : Corpus :=
  Samples.corpus_of [("a", 16000%Z); ("b", 8000%Z)].

(** Two keys whose utterances carry the same [idx]. *)
Definition shared_idx : Corpus :=
  mkCorpus [("a", Samples.utt "a" 16000); ("b", Samples.utt "a" 16000)].

Definition run_of (corpus : Corpus) (sr : option Z) (sched : list nat)
    : World (string * Z * Z * option Z)
      * (Stop + containers.FeatureContainer (string * Z * Z * option Z)) :=
  run Samples.tagging corpus "out.hdf5" 2 400 160 sr sched.

Definition container_of (corpus : Corpus) (sr : option Z) (sched : list nat)
    : containers.FeatureContainer (string * Z * Z * option Z) :=
  match (run_of corpus sr sched).2 with
  | inr c => c
  | inl _ => containers.new "out.hdf5"
  end.

End MoreSamples.

(** * Properties *)

(** ** Python primitives *)

Lemma py_slice_nat {A} (l : list A) (a b : nat) :
  a ≤ b ≤ length l → py_slice l (Z.of_nat a) (Z.of_nat b) = span l a b.
Proof.
  intros [Hab Hb]. unfold py_slice, slice_index, span.
  destruct (Z.ltb_spec (Z.of_nat a) 0); [lia|].
  destruct (Z.ltb_spec (Z.of_nat b) 0); [lia|].
  rewrite !Z.min_l, !Nat2Z.id by lia. done.
Qed.

Lemma span_to_end {A} (l : list A) (a : nat) :
  span l a (length l) = drop a l.
Proof. unfold span. apply take_ge. rewrite length_drop. lia. Qed.

Lemma py_range_length n : length (py_range n) = Z.to_nat n.
Proof. unfold py_range. by rewrite length_fmap, length_seq. Qed.

Lemma py_range_lookup n (i : nat) :
  i < Z.to_nat n → py_range n !! i = Some (Z.of_nat i).
Proof.
  intros Hi. unfold py_range. rewrite list_lookup_fmap, lookup_seq_lt by done. done.
Qed.

Lemma py_range_S (n : nat) :
  py_range (Z.of_nat (S n)) = py_range (Z.of_nat n) ++ [Z.of_nat n].
Proof.
  unfold py_range. rewrite !Nat2Z.id, seq_S, fmap_app. done.
Qed.

(** ** Partitioner *)

Section Partition.
Variable utterance_ids : list string.
Variable W : nat.
Hypothesis HW : 2 ≤ W.

Let N := length utterance_ids.
Let q := N / W.

Lemma utts_per_worker_floor :
  utts_per_worker utterance_ids (Z.of_nat W) = Z.of_nat q.
Proof.
  unfold utts_per_worker, py_int_truediv, q, N.
  rewrite Z.quot_div_nonneg by lia. by rewrite Nat2Z.inj_div.
Qed.

Lemma chunks_within : W * q ≤ N.
Proof. unfold q. apply Nat.Div0.mul_div_le. Qed.

Lemma worker_utts_inner (i : nat) :
  i < W - 1 →
  worker_utts utterance_ids (Z.of_nat W) (Z.of_nat i)
  = span utterance_ids (i * q) ((i + 1) * q).
Proof.
  intros Hi. unfold worker_utts, utt_start_index, utt_end_index.
  rewrite utts_per_worker_floor.
  destruct (Z.eqb_spec (Z.of_nat i) (Z.of_nat W - 1)); [lia|].
  replace (Z.of_nat i * Z.of_nat q)%Z with (Z.of_nat (i * q)) by lia.
  replace ((Z.of_nat i + 1) * Z.of_nat q)%Z with (Z.of_nat ((i + 1) * q)) by lia.
  apply py_slice_nat. pose proof chunks_within. fold N. nia.
Qed.

Lemma worker_utts_last :
  worker_utts utterance_ids (Z.of_nat W) (Z.of_nat (W - 1))
  = span utterance_ids ((W - 1) * q) N.
Proof.
  unfold worker_utts, utt_start_index, utt_end_index.
  rewrite utts_per_worker_floor.
  destruct (Z.eqb_spec (Z.of_nat (W - 1)) (Z.of_nat W - 1)); [|lia].
  replace (Z.of_nat (W - 1) * Z.of_nat q)%Z with (Z.of_nat ((W - 1) * q)) by lia.
  apply py_slice_nat. pose proof chunks_within. fold N. nia.
Qed.

Lemma chunks_concat (k : nat) :
  concat ((λ i, span utterance_ids (i * q) ((i + 1) * q)) <$> seq 0 k)
  = take (k * q) utterance_ids.
Proof.
  induction k as [|k IH]; [done|].
  rewrite seq_S, fmap_app, concat_app, IH. simpl. rewrite app_nil_r.
  unfold span. replace ((k + 1) * q - k * q) with q by lia.
  rewrite take_take_drop. f_equal. lia.
Qed.

Lemma worker_ranges_chunks :
  worker_ranges utterance_ids (Z.of_nat W)
  = ((λ i, span utterance_ids (i * q) ((i + 1) * q)) <$> seq 0 (W - 1))
    ++ [span utterance_ids ((W - 1) * q) N].
Proof.
  unfold worker_ranges, py_range. rewrite Nat2Z.id.
  replace W with (S (W - 1)) at 2 by lia.
  rewrite seq_S, !fmap_app. simpl. rewrite worker_utts_last. f_equal.
  rewrite <- list_fmap_compose. apply list_fmap_ext.
  intros j i [-> Hi]%lookup_seq. simpl.
  apply worker_utts_inner. lia.
Qed.

Lemma worker_ranges_concat :
  concat (worker_ranges utterance_ids (Z.of_nat W)) = utterance_ids.
Proof.
  rewrite worker_ranges_chunks, concat_app, chunks_concat. simpl.
  rewrite app_nil_r. unfold N. rewrite span_to_end. apply take_drop.
Qed.

End Partition.

Lemma span_length {A} (l : list A) (a b : nat) :
  b ≤ length l → length (span l a b) = b - a.
Proof. intros Hb. unfold span. rewrite length_take, length_drop. lia. Qed.

Lemma py_slice_subseteq {A} (l : list A) (a b : Z) : py_slice l a b ⊆ l.
Proof.
  unfold py_slice. etrans; [apply subseteq_take | apply subseteq_drop].
Qed.

Lemma worker_ranges_length utterance_ids num_workers :
  length (worker_ranges utterance_ids num_workers) = Z.to_nat num_workers.
Proof. unfold worker_ranges. by rewrite length_fmap, py_range_length. Qed.

Lemma worker_ranges_lookup utterance_ids num_workers (i : nat) range :
  worker_ranges utterance_ids num_workers !! i = Some range →
  range = worker_utts utterance_ids num_workers (Z.of_nat i).
Proof.
  intros H. pose proof (lookup_lt_Some _ _ _ H) as Hlt.
  rewrite worker_ranges_length in Hlt.
  unfold worker_ranges in H.
  rewrite list_lookup_fmap, py_range_lookup in H by done. by simplify_eq/=.
Qed.

(** C1: for [N] identifiers and [W >= 2] workers the partitioner builds
    exactly [W] ranges; range [i < W-1] is the part of the sequence at
    [i * floor(N/W), (i+1) * floor(N/W)), the last range runs from
    [(W-1) * floor(N/W)] to [N]; so the ranges, one after the other, are
    the whole sequence (contiguous, disjoint, covering, some of them
    empty when [N < W]); ten identifiers and three workers give ranges
    of the sizes 3, 3, 4. *)
Theorem partition_ranges (utterance_ids : list string) (num_workers : Z) :
  (2 ≤ num_workers)%Z →
  let N := length utterance_ids in
  let W := Z.to_nat num_workers in
  let q := N / W in
  let ranges := worker_ranges utterance_ids num_workers in
  length ranges = W ∧
  (∀ i, i < W - 1 →
     ranges !! i = Some (span utterance_ids (i * q) ((i + 1) * q)) ∧
     (i + 1) * q ≤ N) ∧
  ranges !! (W - 1) = Some (span utterance_ids ((W - 1) * q) N) ∧
  (W - 1) * q ≤ N ∧
  concat ranges = utterance_ids ∧
  (N = 10 → num_workers = 3%Z → length <$> ranges = [3; 3; 4]).
Proof.
  intros HW N W q ranges.
  assert (HWn : 2 ≤ W) by (unfold W; lia).
  assert (HZ : num_workers = Z.of_nat W) by (unfold W; lia).
  pose proof (chunks_within utterance_ids W) as Hin. fold N q in Hin.
  assert (Hchunks : ranges =
    ((λ i, span utterance_ids (i * q) ((i + 1) * q)) <$> seq 0 (W - 1))
      ++ [span utterance_ids ((W - 1) * q) N]).
  { unfold ranges. rewrite HZ. by apply worker_ranges_chunks. }
  split_and!.
  - apply worker_ranges_length.
  - intros i Hi. split; [|nia].
    rewrite Hchunks, lookup_app_l by (rewrite length_fmap, length_seq; lia).
    rewrite list_lookup_fmap, lookup_seq_lt by lia. done.
  - rewrite Hchunks, lookup_app_r by (rewrite length_fmap, length_seq; lia).
    rewrite length_fmap, length_seq, Nat.sub_diag. done.
  - nia.
  - unfold ranges. rewrite HZ. by apply worker_ranges_concat.
  - intros HN H3. rewrite Hchunks.
    assert (W = 3) as -> by lia. assert (q = 3) as -> by (unfold q; rewrite HN; done).
    simpl. rewrite !span_length by (fold N; lia). by rewrite HN.
Qed.

Lemma partition_ranges_witness :
  concat (worker_ranges Samples.ten_ids 3) = Samples.ten_ids ∧
  length <$> worker_ranges Samples.ten_ids 3 = [3; 3; 4].
Proof.
  pose proof (partition_ranges Samples.ten_ids 3 ltac:(lia)) as H.
  simpl in H. destruct H as (_ & _ & _ & _ & Hc & Hex).
  split; [exact Hc | apply Hex; reflexivity].
Defined.

(** ** Corpus access *)

Lemma assoc_elem_of key d u : assoc key d = Some u → (key, u) ∈ d.
Proof.
  induction d as [|[k v] d IH]; simpl; [done|].
  case_decide; intros; simplify_eq; [left | right; auto].
Qed.

Lemma assoc_is_Some key d : key ∈ d.*1 → is_Some (assoc key d).
Proof.
  induction d as [|[k v] d IH]; simpl; [by intros ?%elem_of_nil|].
  intros [->|Hin]%elem_of_cons; case_decide; eauto; done.
Qed.

Lemma assoc_NoDup key d u : NoDup d.*1 → (key, u) ∈ d → assoc key d = Some u.
Proof.
  induction d as [|[k v] d IH]; simpl; [by intros _ ?%elem_of_nil|].
  intros [Hk Hd]%NoDup_cons [Heq|Hin]%elem_of_cons.
  - simplify_eq. by rewrite decide_True.
  - case_decide as Hkk; [|auto]. subst k. destruct Hk.
    apply list_elem_of_fmap. by exists (key, u).
Qed.

Lemma get_utterance_key corpus key :
  key ∈ keys corpus →
  ∃ u, get_utterance corpus key = inr u ∧ (key, u) ∈ utterances corpus.
Proof.
  intros [u Hu]%assoc_is_Some. exists u. unfold get_utterance. rewrite Hu.
  split; [done | by apply assoc_elem_of].
Qed.

Lemma get_utterance_wf corpus key u :
  NoDup (keys corpus) → (key, u) ∈ utterances corpus →
  get_utterance corpus key = inr u.
Proof. intros Hnd Hin. unfold get_utterance. by rewrite (assoc_NoDup _ _ u). Qed.

Lemma resolves_keys corpus range :
  range ⊆ keys corpus → ∃ us, resolves corpus range us.
Proof.
  induction range as [|k range IH]; intros Hsub; [by exists []; constructor|].
  destruct (get_utterance_key corpus k) as (u & Hu & _); [set_solver|].
  destruct IH as [us Hus]; [set_solver|].
  exists (u :: us). by constructor.
Qed.

Lemma resolves_all corpus :
  NoDup (keys corpus) → resolves corpus (keys corpus) (utterances corpus).*2.
Proof.
  intros Hnd. unfold resolves, keys. apply Forall2_fmap, Forall2_same_length_lookup.
  split; [done|]. intros i [k u] [k' u'] H1 H2. simplify_eq. simpl.
  apply get_utterance_wf; [done|]. by eapply list_elem_of_lookup_2.
Qed.

(** ** Worker *)

Section WorkerFacts.
Context {Feature : Type}.
Variable processor : Processor Feature.
Variable corpus : Corpus.
Variables frame_size hop_size : Z.

Local Abbreviation loop := (worker_loop processor corpus frame_size hop_size).
Local Abbreviation done_with sr := (processed processor corpus frame_size hop_size sr).

Lemma worker_loop_step sr s k rest u s' :
  get_utterance corpus k = inr u →
  check_sampling_rate sr s u = inr s' →
  loop sr s (k :: rest)
  = (done_with sr [u] ++ (loop sr s' rest).1, (loop sr s' rest).2).
Proof. intros Hu Hc. simpl. rewrite Hu, Hc. by destruct (loop sr s' rest). Qed.

Lemma worker_loop_raise sr s k rest u e :
  get_utterance corpus k = inr u →
  check_sampling_rate sr s u = inl e →
  loop sr s (k :: rest) = ([], Some e).
Proof. intros Hu Hc. simpl. by rewrite Hu, Hc. Qed.

Lemma processed_cons sr u us :
  done_with sr (u :: us) = done_with sr [u] ++ done_with sr us.
Proof. done. Qed.

Lemma processed_app sr us1 us2 :
  done_with sr (us1 ++ us2) = done_with sr us1 ++ done_with sr us2.
Proof. unfold processed. by rewrite bind_app. Qed.

Lemma puts_app (e1 e2 : list (WorkerEvent Feature)) :
  puts (e1 ++ e2) = puts e1 ++ puts e2.
Proof. apply omap_app. Qed.

Lemma calls_app (e1 e2 : list (WorkerEvent Feature)) :
  calls (e1 ++ e2) = calls e1 ++ calls e2.
Proof. apply omap_app. Qed.

Lemma puts_processed sr us :
  puts (done_with sr us) = record processor corpus frame_size hop_size sr <$> us.
Proof.
  induction us as [|u us IH]; [done|].
  by rewrite processed_cons, puts_app, IH.
Qed.

Lemma calls_processed sr us :
  calls (done_with sr us) = (λ u, (u, frame_size, hop_size, sr)) <$> us.
Proof.
  induction us as [|u us IH]; [done|].
  by rewrite processed_cons, calls_app, IH.
Qed.

(** The shape of every run of the loop: it processes a prefix of its
    range, the whole range exactly when it does not raise. *)
Lemma worker_loop_shape sr s range :
  ∃ us, resolves corpus (take (length us) range) us ∧
    match (loop sr s range).2 with
    | None => length us = length range ∧
              (loop sr s range).1 = done_with sr us ++ [QueueClose]
    | Some _ => length us < length range ∧
                (loop sr s range).1 = done_with sr us
    end.
Proof.
  revert s. induction range as [|k rest IH]; intros s.
  { exists []. simpl. split; [constructor | done]. }
  destruct (get_utterance corpus k) as [e|u] eqn:Hu.
  { exists []. simpl. rewrite Hu. simpl. split; [constructor | split; [lia | done]]. }
  destruct (check_sampling_rate sr s u) as [e|s'] eqn:Hc.
  { exists []. rewrite (worker_loop_raise _ _ _ _ _ _ Hu Hc). simpl.
    split; [constructor | split; [lia | done]]. }
  destruct (IH s') as (us & Hres & Hshape). exists (u :: us).
  rewrite (worker_loop_step _ _ _ _ _ _ Hu Hc). simpl.
  split; [by constructor|].
  destruct ((loop sr s' rest).2); destruct Hshape as [Hlen ->]; (split; [lia | done]).
Qed.

Lemma worker_loop_puts_length sr s range :
  length (puts (loop sr s range).1) ≤ length range.
Proof.
  destruct (worker_loop_shape sr s range) as (us & _ & H).
  destruct ((loop sr s range).2); destruct H as [Hlen ->].
  - rewrite puts_processed, length_fmap. lia.
  - rewrite puts_app, puts_processed, length_app, length_fmap. simpl. lia.
Qed.

Lemma worker_loop_complete sr s range :
  length range ≤ length (puts (loop sr s range).1) →
  (loop sr s range).2 = None ∧
  ∃ us, resolves corpus range us ∧
        (loop sr s range).1 = done_with sr us ++ [QueueClose].
Proof.
  destruct (worker_loop_shape sr s range) as (us & Hres & H).
  destruct ((loop sr s range).2); destruct H as [Hlen ->].
  - rewrite puts_processed, length_fmap. lia.
  - intros _. split; [done|]. exists us. split; [|done].
    by rewrite Hlen, firstn_all in Hres.
Qed.

Lemma resolves_fun range us us' :
  resolves corpus range us → resolves corpus range us' → us = us'.
Proof.
  intros H. revert us'. induction H as [|k u range us Hk _ IH]; intros us' H'.
  - by inv H'.
  - inv H'. f_equal; [congruence | auto].
Qed.

Lemma worker_loop_None sr s range us :
  resolves corpus range us →
  (loop sr s range).2 = None →
  (loop sr s range).1 = done_with sr us ++ [QueueClose].
Proof.
  intros Hres Hnone.
  destruct (worker_loop_shape sr s range) as (us' & Hres' & H).
  rewrite Hnone in H. destruct H as [Hlen ->].
  rewrite Hlen, firstn_all in Hres'.
  by rewrite (resolves_fun _ _ _ Hres Hres').
Qed.

End WorkerFacts.

(** ** The sampling-rate check *)

Lemma check_forced r s u : check_sampling_rate (Some r) s u = inr s.
Proof. done. Qed.

Lemma check_raises prev u :
  (0 < prev)%Z → prev ≠ sampling_rate u →
  check_sampling_rate None prev u = inl (InconsistentSampleRateError u).
Proof.
  intros Hpos Hne. unfold check_sampling_rate, utt_sampling_rate.
  destruct (Z.gtb_spec prev 0); [|lia].
  destruct (Z.eqb_spec prev (sampling_rate u)); done.
Qed.

Lemma check_passes prev u :
  (prev ≤ 0)%Z ∨ prev = sampling_rate u →
  check_sampling_rate None prev u = inr (sampling_rate u).
Proof.
  intros H. unfold check_sampling_rate, utt_sampling_rate.
  destruct (Z.gtb_spec prev 0), (Z.eqb_spec prev (sampling_rate u)); simpl; try done; lia.
Qed.

Lemma check_inr_inv prev u s :
  check_sampling_rate None prev u = inr s →
  ((prev ≤ 0)%Z ∨ prev = sampling_rate u) ∧ s = sampling_rate u.
Proof.
  unfold check_sampling_rate, utt_sampling_rate.
  destruct (Z.gtb_spec prev 0), (Z.eqb_spec prev (sampling_rate u));
    simpl; intros; simplify_eq; split; auto.
Qed.

Section RateFacts.
Context {Feature : Type}.
Variable processor : Processor Feature.
Variable corpus : Corpus.
Variables frame_size hop_size : Z.

Local Abbreviation loop := (worker_loop processor corpus frame_size hop_size).
Local Abbreviation done_with sr := (processed processor corpus frame_size hop_size sr).

(** A stretch of utterances at the running rate passes the check and
    leaves the running rate as it was. *)
Lemma loop_same_rate_prefix b r1 us1 r2 :
  resolves corpus r1 us1 →
  Forall (λ u, sampling_rate u = b) us1 →
  loop None b (r1 ++ r2)
  = (done_with None us1 ++ (loop None b r2).1, (loop None b r2).2).
Proof.
  intros Hres. induction Hres as [|k u r1 us1 Hk _ IH]; intros Hall.
  { simpl. by destruct (loop None b r2). }
  apply Forall_cons in Hall as [Hu Hall]. simpl app.
  rewrite (worker_loop_step _ _ _ _ _ _ _ _ u b Hk)
    by (rewrite check_passes; [by rewrite Hu | by right]).
  by rewrite (IH Hall).
Qed.

Lemma loop_uniform R s range us :
  (s ≤ 0)%Z ∨ s = R →
  resolves corpus range us →
  Forall (λ u, sampling_rate u = R) us →
  loop None s range = (done_with None us ++ [QueueClose], None).
Proof.
  intros Hs Hres Hall. destruct Hres as [|k u range us Hk Hres]; [done|].
  apply Forall_cons in Hall as [Hu Hall].
  rewrite (worker_loop_step _ _ _ _ _ _ _ _ u R Hk)
    by (rewrite check_passes; [by rewrite Hu | by rewrite Hu]).
  rewrite <- (app_nil_r range), (loop_same_rate_prefix R range us []) by done.
  by rewrite (processed_cons _ _ _ _ _ u us), <- app_assoc.
Qed.

Lemma loop_forced r s range us :
  resolves corpus range us →
  loop (Some r) s range = (done_with (Some r) us ++ [QueueClose], None).
Proof.
  induction 1 as [|k u range us Hk _ IH]; [done|].
  rewrite (worker_loop_step _ _ _ _ _ _ _ _ u s Hk (check_forced r s u)).
  by rewrite IH.
Qed.

Lemma loop_forced_raises_no_ValueError r s range msg :
  (loop (Some r) s range).2 ≠ Some (ValueError msg).
Proof.
  induction range as [|k range IH]; [done|].
  destruct (get_utterance corpus k) as [e|u] eqn:Hk.
  - simpl. rewrite Hk. simpl. unfold get_utterance in Hk.
    destruct (assoc k (utterances corpus)); by simplify_eq.
  - by rewrite (worker_loop_step _ _ _ _ _ _ _ _ u s Hk (check_forced r s u)).
Qed.

End RateFacts.

(** C3 (as amended): with no forced rate, a worker whose range reports
    one rate throughout processes every item and raises nothing; and
    when the first item's rate, the baseline, is strictly positive, the
    first later item of the range whose rate differs from it makes the
    worker raise the error that names that item, after exactly the items
    before it were processed. *)
Theorem worker_rate_baseline {Feature} (processor : Processor Feature)
    (corpus : Corpus) (frame_size hop_size : Z)
    (range : list string) (us : list Utterance) :
  resolves corpus range us →
  let run := worker_process_utterances_task processor range corpus
                                            frame_size hop_size None in
  (∀ R, Forall (λ u, sampling_rate u = R) us →
        run = (processed processor corpus frame_size hop_size None us
                 ++ [QueueClose], None)) ∧
  (∀ u0 same v rest,
     us = u0 :: same ++ v :: rest →
     Forall (λ u, sampling_rate u = sampling_rate u0) same →
     sampling_rate v ≠ sampling_rate u0 →
     (0 < sampling_rate u0)%Z →
     run = (processed processor corpus frame_size hop_size None (u0 :: same),
            Some (InconsistentSampleRateError v))).
Proof.
  intros Hres run. split.
  - intros R Hall. apply (loop_uniform _ _ _ _ R); [left; lia | done | done].
  - intros u0 same v rest -> Hsame Hv Hpos.
    apply Forall2_cons_inv_r in Hres as (k0 & range' & Hk0 & Hres & ->).
    apply Forall2_app_inv_r in Hres as (r1 & r2 & Hr1 & Hres & ->).
    apply Forall2_cons_inv_r in Hres as (kv & r3 & Hkv & _ & ->).
    unfold run, worker_process_utterances_task.
    rewrite (worker_loop_step _ _ _ _ _ _ _ _ u0 (sampling_rate u0) Hk0)
      by (apply check_passes; left; lia).
    rewrite (loop_same_rate_prefix _ _ _ _ (sampling_rate u0) r1 same) by done.
    rewrite (worker_loop_raise _ _ _ _ _ _ _ _ v
               (InconsistentSampleRateError v) Hkv)
      by (apply check_raises; [done | congruence]).
    cbn [fst snd]. by rewrite app_nil_r.
Qed.

Lemma worker_rate_baseline_witness :
  worker_process_utterances_task Samples.tagging ["a"; "b"; "c"] Samples.mixed3
                                 400 160 None
  = (processed Samples.tagging Samples.mixed3 400 160 None
       [Samples.utt "a" 16000],
     Some (InconsistentSampleRateError (Samples.utt "b" 8000))).
Proof.
  refine (proj2 (worker_rate_baseline Samples.tagging Samples.mixed3 400 160
                   ["a"; "b"; "c"]
                   [Samples.utt "a" 16000; Samples.utt "b" 8000;
                    Samples.utt "c" 16000] _)
                (Samples.utt "a" 16000) [] (Samples.utt "b" 8000)
                [Samples.utt "c" 16000] _ _ _ _).
  - repeat constructor.
  - reflexivity.
  - constructor.
  - simpl. discriminate.
  - simpl. lia.
Defined.

(** The claim C3 as the specification words it, without the condition
    on the sign of the baseline, fails: a first item that reports the
    rate 0 is followed by an item at 16 kHz and the worker raises
    nothing. *)
Lemma worker_rate_baseline_counterexample :
  ¬ (∀ (corpus : Corpus) (range : list string) (us : list Utterance)
       (u0 : Utterance) (same : list Utterance) (v : Utterance)
       (rest : list Utterance),
       resolves corpus range us →
       us = u0 :: same ++ v :: rest →
       Forall (λ u, sampling_rate u = sampling_rate u0) same →
       sampling_rate v ≠ sampling_rate u0 →
       (worker_process_utterances_task Samples.tagging range corpus
                                       400 160 None).2
       = Some (InconsistentSampleRateError v)).
Proof.
  intros H.
  specialize (H Samples.zero_first ["a"; "b"]
                [Samples.utt "a" 0; Samples.utt "b" 16000]
                (Samples.utt "a" 0) [] (Samples.utt "b" 16000) []).
  assert (Hfalse : (None : option exn) = Some (InconsistentSampleRateError (Samples.utt "b" 16000))).
  { apply H; [repeat constructor | reflexivity | constructor | simpl; discriminate]. }
  discriminate Hfalse.
Qed.

(** C6 (as amended): the sampling-rate argument of every processor call
    a worker makes is the [sr] the worker was given, unchanged: the
    forced rate when one is configured, which is then the effective
    rate, and [None] when none is; frame and hop size are passed on as
    configured. *)
Theorem process_call_arguments {Feature} (processor : Processor Feature)
    (corpus : Corpus) (frame_size hop_size : Z) (sr : option Z)
    (range : list string) (u : Utterance) (f h : Z) (s : option Z) :
  (u, f, h, s) ∈ calls (worker_process_utterances_task processor range corpus
                          frame_size hop_size sr).1 →
  s = sr ∧ f = frame_size ∧ h = hop_size ∧
  (∀ r, sr = Some r → s = Some (effective_sampling_rate sr u)) ∧
  (sr = None → s = None).
Proof.
  unfold worker_process_utterances_task. intros Hin.
  destruct (worker_loop_shape processor corpus frame_size hop_size sr (-1) range)
    as (us & _ & Hshape).
  assert (Hcalls : (u, f, h, s) ∈ (λ u, (u, frame_size, hop_size, sr)) <$> us).
  { destruct ((worker_loop processor corpus frame_size hop_size sr (-1) range).2);
      destruct Hshape as [_ Heq]; rewrite Heq in Hin.
    - by rewrite calls_processed in Hin.
    - by rewrite calls_app, calls_processed, app_nil_r in Hin. }
  apply list_elem_of_fmap in Hcalls as (u' & Heq & _). simplify_eq.
  split_and!; try done. by intros r ->.
Qed.

Lemma process_call_arguments_witness :
  (None : option Z) = None ∧ 400%Z = 400%Z ∧ 160%Z = 160%Z ∧
  (∀ r, (None : option Z) = Some r →
        None = Some (effective_sampling_rate None (Samples.utt "a" 16000))) ∧
  ((None : option Z) = None → (None : option Z) = None).
Proof.
  apply (process_call_arguments Samples.tagging Samples.uniform3 400 160 None
           ["a"; "b"; "c"] (Samples.utt "a" 16000) 400 160 None).
  vm_compute. left.
Defined.

(** The claim C6 as the specification words it fails: with no forced
    rate the argument is [None], not the item's own rate. *)
Lemma process_call_arguments_counterexample :
  ¬ (∀ (corpus : Corpus) (sr : option Z) (range : list string)
       (u : Utterance) (f h : Z) (s : option Z),
       (u, f, h, s) ∈ calls (worker_process_utterances_task Samples.tagging
                               range corpus 400 160 sr).1 →
       s = Some (effective_sampling_rate sr u)).
Proof.
  intros H.
  specialize (H Samples.uniform3 None ["a"; "b"; "c"]
                (Samples.utt "a" 16000) 400%Z 160%Z None).
  assert (Hfalse : (None : option Z) = Some 16000%Z).
  { apply H. vm_compute. left. }
  discriminate Hfalse.
Qed.

(** C7: with a forced rate, the worker of every range of the partition
    raises nothing whatever rates its items report, it calls the
    processor once per item of its range and passes the forced rate in
    every call; and on no range at all does a worker with a forced rate
    raise a [ValueError]. *)
Theorem forced_rate_used_unchecked {Feature} (processor : Processor Feature)
    (corpus : Corpus) (num_workers frame_size hop_size r : Z) (i : Z) :
  let range := worker_utts (keys corpus) num_workers i in
  let run := worker_process_utterances_task processor range corpus
                                            frame_size hop_size (Some r) in
  run.2 = None ∧
  (∃ us, resolves corpus range us ∧
         calls run.1 = (λ u, (u, frame_size, hop_size, Some r)) <$> us) ∧
  (∀ range' msg,
     (worker_process_utterances_task processor range' corpus
                                     frame_size hop_size (Some r)).2
     ≠ Some (ValueError msg)).
Proof.
  intros range run.
  destruct (resolves_keys corpus range) as [us Hus].
  { apply py_slice_subseteq. }
  unfold run, worker_process_utterances_task.
  rewrite (loop_forced _ _ _ _ r (-1)%Z range us Hus). split_and!.
  - done.
  - exists us. split; [done|].
    cbn [fst]. by rewrite calls_app, calls_processed, app_nil_r.
  - intros range' msg. apply loop_forced_raises_no_ValueError.
Qed.

(** C9: with no forced rate the running rate starts at -1; the check
    raises exactly when the running rate is strictly positive and
    differs from the item's rate, and otherwise the item's rate becomes
    the running rate; so when an item that passes the check reports a
    rate that is not positive, the item after it passes whatever its
    rate: both are processed and the loop goes on from the second one's
    rate. *)
Theorem check_compares_previous_positive {Feature} (processor : Processor Feature)
    (corpus : Corpus) (frame_size hop_size : Z)
    (prev : Z) (ku kv : string) (rest : list string) (u v : Utterance) (s : Z) :
  get_utterance corpus ku = inr u →
  get_utterance corpus kv = inr v →
  check_sampling_rate None prev u = inr s →
  (sampling_rate u ≤ 0)%Z →
  worker_process_utterances_task processor (ku :: kv :: rest) corpus
                                 frame_size hop_size None
  = worker_loop processor corpus frame_size hop_size None (-1) (ku :: kv :: rest)
  ∧ (∀ p w, (∃ e, check_sampling_rate None p w = inl e)
            ↔ (0 < p)%Z ∧ p ≠ sampling_rate w)
  ∧ (∀ p w s', check_sampling_rate None p w = inr s' → s' = sampling_rate w)
  ∧ worker_loop processor corpus frame_size hop_size None prev (ku :: kv :: rest)
    = (processed processor corpus frame_size hop_size None [u; v]
         ++ (worker_loop processor corpus frame_size hop_size None
                         (sampling_rate v) rest).1,
       (worker_loop processor corpus frame_size hop_size None
                    (sampling_rate v) rest).2).
Proof.
  intros Hu Hv Hpass Hnonpos. split_and!.
  - done.
  - intros p w. split.
    + intros [e He]. destruct (decide ((0 < p)%Z ∧ p ≠ sampling_rate w)) as [|Hn]; [done|].
      rewrite check_passes in He by (destruct (decide (p = sampling_rate w)); [by right | left; lia]).
      done.
    + intros [Hp Hne]. eexists. by apply check_raises.
  - intros p w s' H. by apply check_inr_inv in H as [_ ->].
  - destruct (check_inr_inv _ _ _ Hpass) as [Hok _].
    rewrite (worker_loop_step _ _ _ _ _ _ _ _ u (sampling_rate u) Hu)
      by (by apply check_passes).
    rewrite (worker_loop_step _ _ _ _ _ _ _ _ v (sampling_rate v) Hv)
      by (apply check_passes; by left).
    done.
Qed.

Lemma check_compares_previous_positive_witness :
  worker_loop Samples.tagging Samples.zero_first 400 160 None (-1) ["a"; "b"]
  = (processed Samples.tagging Samples.zero_first 400 160 None
       [Samples.utt "a" 0; Samples.utt "b" 16000] ++ [QueueClose], None).
Proof.
  refine (proj2 (proj2 (proj2
    (check_compares_previous_positive Samples.tagging Samples.zero_first
       400 160 (-1) "a" "b" [] (Samples.utt "a" 0) (Samples.utt "b" 16000) 0
       _ _ _ _)))).
  - reflexivity.
  - reflexivity.
  - reflexivity.
  - simpl. lia.
Defined.

(** ** The result queue *)

Section QueueFacts.
Context {R : Type}.
Implicit Types pending : list (list R).

Lemma take_from_Some i pending x pending' :
  take_from i pending = Some (x, pending') →
  concat pending ≡ₚ x :: concat pending'.
Proof.
  unfold take_from. destruct (pending !! i) as [[|y ys]|] eqn:Hi; intros Heq; simplify_eq.
  pose proof (lookup_lt_Some _ _ _ Hi) as Hlt.
  rewrite <- (take_drop_middle _ _ _ Hi) at 1.
  rewrite (insert_take_drop pending i ys Hlt).
  rewrite !concat_app. simpl. by rewrite <- Permutation_middle.
Qed.

Lemma first_ready_Some pending x pending' :
  first_ready pending = Some (x, pending') →
  concat pending ≡ₚ x :: concat pending'.
Proof.
  revert pending'. induction pending as [|[|y ys] rest IH]; intros pending' H;
    simpl in H; simplify_eq; [|done].
  destruct (first_ready rest) as [[z rest']|]; simplify_eq. simpl. by apply IH.
Qed.

Lemma first_ready_None pending :
  first_ready pending = None → concat pending = [].
Proof.
  induction pending as [|[|y ys] rest IH]; simpl; [done| |done].
  destruct (first_ready rest) as [[z rest']|]; [done | auto].
Qed.

Lemma next_arrival_Some schedule pending x pending' schedule' :
  next_arrival schedule pending = (Some (x, pending'), schedule') →
  concat pending ≡ₚ x :: concat pending'.
Proof.
  unfold next_arrival. destruct schedule as [|i s].
  - intros ?; simplify_eq. by apply first_ready_Some.
  - destruct (take_from i pending) as [[y p]|] eqn:Ht; intros ?; simplify_eq.
    + by eapply take_from_Some.
    + by apply first_ready_Some.
Qed.

Lemma next_arrival_None schedule pending schedule' :
  next_arrival schedule pending = (None, schedule') → concat pending = [].
Proof.
  unfold next_arrival. destruct schedule as [|i s].
  - intros ?; simplify_eq. by apply first_ready_None.
  - destruct (take_from i pending) as [[y p]|]; intros ?; simplify_eq.
    by apply first_ready_None.
Qed.

End QueueFacts.

(** ** The loops of the orchestrator *)

Section LoopFacts.
Context {Feature : Type}.
Implicit Types w : World Feature.
Implicit Types c : containers.FeatureContainer Feature.

Lemma bind_inr {A B} (m : M Feature A) (f : A → M Feature B) w w' a :
  m w = (w', inr a) → (m ≫= f) w = f a w'.
Proof. intros H. unfold mbind, M_bind. by rewrite H. Qed.

Lemma bind_inl {A B} (m : M Feature A) (f : A → M Feature B) w w' s :
  m w = (w', inl s) → (m ≫= f) w = (w', inl s).
Proof. intros H. unfold mbind, M_bind. by rewrite H. Qed.

Lemma bind_inr_inv {A B} (m : M Feature A) (f : A → M Feature B) w w' b :
  (m ≫= f) w = (w', inr b) → ∃ w1 a, m w = (w1, inr a) ∧ f a w1 = (w', inr b).
Proof.
  unfold mbind, M_bind. destruct (m w) as [w1 [s|a]]; intros; simplify_eq; eauto.
Qed.

Lemma emit_eq e w :
  emit e w = (mkWorld (trace w ++ [e]) (pending w) (schedule w), inr tt).
Proof. done. Qed.

Lemma container_new_eq p w :
  container_new p w
  = (mkWorld (trace w ++ [Create p]) (pending w) (schedule w),
     inr (containers.new p)).
Proof. done. Qed.

Lemma container_open_eq c w :
  container_open c w
  = (mkWorld (trace w ++ [Open]) (pending w) (schedule w),
     inr (containers.open c)).
Proof. done. Qed.

Lemma container_close_eq c w :
  container_close c w
  = (mkWorld (trace w ++ [Close]) (pending w) (schedule w),
     inr (containers.close c)).
Proof. done. Qed.

Lemma lift_inr_inv {A} (r : exn + A) w w' a :
  lift r w = (w', inr a) → r = inr a ∧ w' = w.
Proof. destruct r; intros H; cbv in H; by simplify_eq. Qed.

(** The loop that creates and starts the workers. *)
Lemma start_loop (task : list string → list (WorkerEvent Feature) * option exn)
    (range_of : Z → list string) (l : list Z) (workers : list Z) w :
  for_ l (λ i workers,
      start_worker i (range_of i) (task (range_of i));; mret (workers ++ [i]))
    workers w
  = (mkWorld (trace w ++ ((λ i, Start i (range_of i)) <$> l))
             (pending w ++ ((λ i, puts (task (range_of i)).1) <$> l))
             (schedule w),
     inr (workers ++ l)).
Proof.
  revert workers w. induction l as [|i l IH]; intros workers w.
  { simpl. unfold mret, M_ret. rewrite !app_nil_r. by destruct w. }
  cbn [for_]. erewrite bind_inr; [|reflexivity]. rewrite IH. cbn.
  by rewrite <- !app_assoc.
Qed.

(** The loop that joins the workers. *)
Lemma join_loop (workers : list Z) w :
  for_ workers (λ worker _, join worker) tt w
  = (mkWorld (trace w ++ (Join <$> workers)) (pending w) (schedule w), inr tt).
Proof.
  revert w. induction workers as [|i l IH]; intros w.
  { simpl. unfold mret, M_ret. rewrite app_nil_r. by destruct w. }
  cbn [for_]. erewrite bind_inr; [|reflexivity]. rewrite IH. cbn.
  by rewrite <- !app_assoc.
Qed.

(** The loop that drains the queue into the container: it returns
    after as many records as it was asked for, each written under its
    own key in the order of arrival, and it blocks exactly when the
    workers have fewer records to deliver than that. *)
Lemma collect_loop {X} (l : list X) c w :
  match for_ l (λ _ feat_container,
                  r ← queue_get; container_set r.1 r.2 feat_container) c w with
  | (w', inr c') =>
      ∃ rs, length rs = length l ∧
            rs = drain (length l) (schedule w) (pending w) ∧
            concat (pending w) ≡ₚ rs ++ concat (pending w') ∧
            trace w' = trace w ++ ((λ r, Set_ r.1 r.2) <$> rs) ∧
            c' = foldl (λ c r, containers.set r.1 r.2 c) c rs
  | (w', inl Block) => length (concat (pending w)) < length l
  | (w', inl (Raise _)) => False
  end.
Proof.
  revert c w. induction l as [|x l IH]; intros c w.
  { simpl. exists []. simpl. by rewrite app_nil_r. }
  cbn [for_].
  destruct (next_arrival (schedule w) (pending w)) as [[[r pending']|] schedule'] eqn:Hn.
  - assert (Hstep : (r ← queue_get; container_set r.1 r.2 c) w
                    = (mkWorld (trace w ++ [Set_ r.1 r.2]) pending' schedule',
                       inr (containers.set r.1 r.2 c))).
    { unfold mbind, M_bind, queue_get. by rewrite Hn. }
    rewrite (bind_inr _ _ _ _ _ Hstep).
    pose proof Hn as Hn0. apply next_arrival_Some in Hn.
    specialize (IH (containers.set r.1 r.2 c)
                   (mkWorld (trace w ++ [Set_ r.1 r.2]) pending' schedule')).
    destruct (for_ l _ _ _) as [w' [[e|]|c']].
    + done.
    + cbn in IH. rewrite Hn. simpl. lia.
    + destruct IH as (rs & Hlen & Hdrain & Hperm & Htrace & Hc). exists (r :: rs).
      cbn [length drain trace pending schedule fmap list_fmap foldl] in *.
      split_and!.
      * by rewrite Hlen.
      * by rewrite Hn0, <- Hdrain.
      * by rewrite Hn, Hperm.
      * by rewrite Htrace, <- app_assoc.
      * done.
  - assert (Hstep : (r ← queue_get; container_set r.1 r.2 c) w = (w, inl Block)).
    { unfold mbind, M_bind, queue_get. by rewrite Hn. }
    rewrite (bind_inl _ _ _ _ _ Hstep).
    apply next_arrival_None in Hn. rewrite Hn. simpl. lia.
Qed.

End LoopFacts.

(** ** Runs of the orchestrator *)

Section RunFacts.
Context {Feature : Type}.
Variable processor : Processor Feature.
Variable corpus : Corpus.
Variable output_path : string.
Variables num_workers frame_size hop_size : Z.
Variable sr : option Z.

Local Abbreviation outputs :=
  ((λ r : list (WorkerEvent Feature) * option exn, puts r.1)
     <$> worker_runs processor corpus num_workers frame_size hop_size sr).

Lemma outputs_eq :
  outputs
  = (λ i, puts (worker_process_utterances_task processor
                  (worker_utts (keys corpus) num_workers i) corpus
                  frame_size hop_size sr).1) <$> py_range num_workers.
Proof.
  unfold worker_runs, worker_ranges. by rewrite <- !list_fmap_compose.
Qed.

(** What a run that returns has done, step by step. *)
Lemma run_returned sched w c :
  run processor corpus output_path num_workers frame_size hop_size sr sched
  = (w, inr c) →
  (2 ≤ num_workers)%Z ∧
  ∃ rs rate,
    length rs = length (keys corpus) ∧
    rs = drain (length (keys corpus)) sched outputs ∧
    concat outputs ≡ₚ rs ++ concat (pending w) ∧
    first_sampling_rate corpus (keys corpus) sr = inr rate ∧
    trace w = starts (keys corpus) num_workers
              ++ [Create output_path; Open]
              ++ ((λ r, Set_ r.1 r.2) <$> rs)
              ++ [SetFrameSize (frame_transform processor frame_size hop_size).1;
                  SetHopSize (frame_transform processor frame_size hop_size).2;
                  SetSamplingRate (py_or sr rate);
                  Close]
              ++ (Join <$> py_range num_workers) ∧
    c = containers.mkFeatureContainer output_path false
          (foldl (λ m r, <[r.1 := r.2]> m) ∅ rs)
          (Some (frame_transform processor frame_size hop_size).1)
          (Some (frame_transform processor frame_size hop_size).2)
          (Some (py_or sr rate)).
Proof.
  unfold run, process_corpus.
  destruct (Z.ltb_spec num_workers 2) as [|HW]; [done|].
  intros H. split; [done|]. cbv zeta in H.
  apply bind_inr_inv in H as (w1 & workers & Hstart & H).
  rewrite (start_loop
             (λ r, worker_process_utterances_task processor r corpus
                     frame_size hop_size sr)
             (worker_utts (keys corpus) num_workers)) in Hstart.
  simplify_eq. cbn [trace pending schedule] in H.
  apply bind_inr_inv in H as (w2 & c2 & Hnew & H).
  rewrite container_new_eq in Hnew. simplify_eq.
  apply bind_inr_inv in H as (w3 & c3 & Hopen & H).
  rewrite container_open_eq in Hopen. simplify_eq.
  cbn [trace pending schedule] in H.
  apply bind_inr_inv in H as (w4 & c4 & Hcollect & H).
  pose proof (collect_loop (py_range (Z.of_nat (length (keys corpus))))
                (containers.open (containers.new output_path))
                (mkWorld ((([] ++ starts (keys corpus) num_workers)
                             ++ [Create output_path]) ++ [Open])
                         ([] ++ outputs) sched)) as Hloop.
  rewrite outputs_eq in Hloop. unfold starts in Hloop.
  rewrite Hcollect in Hloop.
  destruct Hloop as (rs & Hlen & Hdrain & Hperm & Htrace & Hc4).
  rewrite py_range_length, Nat2Z.id in Hlen, Hdrain.
  cbn [trace pending schedule app] in Hperm, Htrace, Hdrain.
  revert Hdrain.
  apply bind_inr_inv in H as (w5 & rate & Hrate & H).
  apply lift_inr_inv in Hrate as [Hrate ->].
  destruct (frame_transform processor frame_size hop_size) as [tf_frame_size tf_hop_size].
  apply bind_inr_inv in H as (w6 & ? & He1 & H). rewrite emit_eq in He1. simplify_eq.
  apply bind_inr_inv in H as (w7 & ? & He2 & H). rewrite emit_eq in He2. simplify_eq.
  apply bind_inr_inv in H as (w8 & ? & He3 & H). rewrite emit_eq in He3. simplify_eq.
  apply bind_inr_inv in H as (w9 & c9 & Hclose & H).
  rewrite container_close_eq in Hclose. simplify_eq.
  apply bind_inr_inv in H as (w10 & ? & Hjoin & H).
  rewrite join_loop in Hjoin. unfold mret, M_ret in H. simplify_eq.
  intros Hdrain.
  exists rs, rate. cbn [trace pending schedule app fst snd].
  split_and!; try done.
  - by rewrite outputs_eq.
  - by rewrite outputs_eq.
  - rewrite Htrace. unfold starts. by rewrite <- !app_assoc.
  - unfold containers.close, containers.set_sampling_rate,
      containers.set_hop_size, containers.set_frame_size. cbn.
    assert (Hgen : ∀ c0 : containers.FeatureContainer Feature,
      let c1 := foldl (λ c r, containers.set r.1 r.2 c) c0 rs in
      containers.path c1 = containers.path c0 ∧
      containers.entries c1
      = foldl (λ m r, <[r.1 := r.2]> m) (containers.entries c0) rs).
    { clear. induction rs as [|r rs IH]; intros c0; [done|]. simpl.
      destruct (IH (containers.set r.1 r.2 c0)) as [-> ->]. done. }
    destruct (Hgen (containers.open (containers.new output_path))) as [-> ->].
    done.
Qed.

End RunFacts.

(** ** Counting the records *)

Lemma concat_fmap_length_le {A B} (f : list A → list B) (ranges : list (list A)) :
  (∀ r, length (f r) ≤ length r) →
  length (concat (f <$> ranges)) ≤ length (concat ranges).
Proof.
  intros Hf. induction ranges as [|r ranges IH]; [done|].
  rewrite fmap_cons. cbn [concat]. rewrite !length_app. specialize (Hf r). lia.
Qed.

(** When no part yields more than it was given and the parts together
    yield as much as they were given, every part yields its full share. *)
Lemma every_part_full {A B} (f : list A → list B) (ranges : list (list A)) :
  (∀ r, length (f r) ≤ length r) →
  length (concat ranges) ≤ length (concat (f <$> ranges)) →
  Forall (λ r, length r ≤ length (f r)) ranges.
Proof.
  intros Hf. induction ranges as [|r ranges IH]; [constructor|].
  rewrite fmap_cons. cbn [concat]. rewrite !length_app. intros Hle.
  pose proof (concat_fmap_length_le f ranges Hf). pose proof (Hf r).
  constructor; [lia | apply IH; lia].
Qed.

Lemma foldl_insert_list_to_map {V} (rs : list (string * V)) :
  foldl (λ m r, <[r.1 := r.2]> m) (∅ : gmap string V) rs
  = list_to_map (reverse rs).
Proof.
  induction rs as [|[k v] rs IH] using rev_ind; [done|].
  by rewrite foldl_snoc, reverse_snoc, IH.
Qed.

Section Records.
Context {Feature : Type}.
Variable processor : Processor Feature.
Variable corpus : Corpus.
Variables frame_size hop_size : Z.
Variable sr : option Z.

Local Abbreviation task :=
  (λ range, worker_process_utterances_task processor range corpus
                                           frame_size hop_size sr).
Local Abbreviation record_of := (record processor corpus frame_size hop_size sr).

Lemma task_puts_length range : length (puts (task range).1) ≤ length range.
Proof. apply worker_loop_puts_length. Qed.

(** Workers that each put as many records as their range has items
    have all ended normally, and their records are those of the
    utterances of their ranges, in order. *)
Lemma full_ranges (ranges : list (list string)) :
  Forall (λ r, length r ≤ length (puts (task r).1)) ranges →
  Forall (λ r, (task r).2 = None ∧
               ∃ us, resolves corpus r us ∧ puts (task r).1 = record_of <$> us)
         ranges ∧
  ∃ us, resolves corpus (concat ranges) us ∧
        concat ((λ r, puts (task r).1) <$> ranges) = record_of <$> us.
Proof.
  induction 1 as [|r ranges Hr _ [IHall (us & Hus & Hcat)]].
  { split; [constructor|]. exists []. split; [constructor | done]. }
  apply worker_loop_complete in Hr as (Hnone & us' & Hus' & Hev).
  assert (Hputs : puts (task r).1 = record_of <$> us').
  { unfold worker_process_utterances_task. rewrite Hev.
    by rewrite puts_app, puts_processed, app_nil_r. }
  split.
  - constructor; [|done]. split; [done|]. by exists us'.
  - exists (us' ++ us). split.
    + by apply Forall2_app.
    + rewrite fmap_cons. cbn [concat]. by rewrite Hputs, Hcat, fmap_app.
Qed.

Lemma resolves_idx range us :
  Forall (λ kv, idx kv.2 = kv.1) (utterances corpus) →
  resolves corpus range us → idx <$> us = range.
Proof.
  intros Hwf. induction 1 as [|k u range us Hk _ IH]; [done|].
  simpl. f_equal; [|done].
  unfold get_utterance in Hk. destruct (assoc k (utterances corpus)) eqn:Ha; [|done].
  simplify_eq. apply assoc_elem_of in Ha.
  by apply (proj1 (Forall_forall _ _) Hwf (k, u)).
Qed.

Lemma record_fst us : (record_of <$> us).*1 = idx <$> us.
Proof. by rewrite <- list_fmap_compose. Qed.

End Records.

(** ** The trace of a run *)

Section TraceFacts.
Context {Feature : Type}.

Lemma sets_app (t1 t2 : list (Event Feature)) : sets (t1 ++ t2) = sets t1 ++ sets t2.
Proof. apply omap_app. Qed.

Lemma sets_starts utterance_ids num_workers :
  sets (starts (Feature := Feature) utterance_ids num_workers) = [].
Proof. unfold starts. by induction (py_range num_workers). Qed.

Lemma sets_joins (workers : list Z) : sets (Feature := Feature) (Join <$> workers) = [].
Proof. by induction workers. Qed.

Lemma sets_Set (rs : list (string * Feature)) :
  sets ((λ r, Set_ r.1 r.2) <$> rs) = rs.
Proof.
  induction rs as [|[k v] rs IH]; [done|].
  cbn. f_equal. exact IH.
Qed.

End TraceFacts.

(** C2: in a run that returns, the worker of each range ended normally
    after putting one record per identifier of its range, keyed by that
    identifier; the collector read exactly [N] records, which are the
    records of all workers in some order, with none left on the queue,
    and wrote each under its key; so the container has exactly the [N]
    identifiers as its keys, each holding the features of its own
    utterance. *)
Theorem container_one_entry_per_identifier {Feature} (processor : Processor Feature)
    (corpus : Corpus) (output_path : string) (num_workers frame_size hop_size : Z)
    (sr : option Z) (sched : list nat) (w : World Feature)
    (c : containers.FeatureContainer Feature) :
  corpus_wf corpus →
  run processor corpus output_path num_workers frame_size hop_size sr sched
  = (w, inr c) →
  let N := length (keys corpus) in
  let runs := worker_runs processor corpus num_workers frame_size hop_size sr in
  Forall2 (λ range r, r.2 = None ∧ (puts r.1).*1 = range)
          (worker_ranges (keys corpus) num_workers) runs ∧
  length (sets (trace w)) = N ∧
  sets (trace w) ≡ₚ concat ((λ r, puts r.1) <$> runs) ∧
  concat (pending w) = [] ∧
  containers.entries c = foldl (λ m r, <[r.1 := r.2]> m) ∅ (sets (trace w)) ∧
  dom (containers.entries c) = list_to_set (keys corpus) ∧
  size (containers.entries c) = N ∧
  (∀ k u, (k, u) ∈ utterances corpus →
          containers.entries c !! k
          = Some (process_utterance processor u frame_size hop_size sr corpus)).
Proof.
  intros [Hnd Hidx] Hrun N runs.
  apply run_returned in Hrun
    as (HW & rs & rate & Hlen & _ & Hperm & Hrate & Htrace & Hc).
  set (ranges := worker_ranges (keys corpus) num_workers).
  set (task := λ range, worker_process_utterances_task processor range corpus
                          frame_size hop_size sr).
  assert (Hcat : concat ranges = keys corpus).
  { unfold ranges. rewrite <- (Z2Nat.id num_workers) by lia.
    apply worker_ranges_concat. lia. }
  assert (Hout : (λ r : list (WorkerEvent Feature) * option exn, puts r.1) <$> runs
                 = (λ r, puts (task r).1) <$> ranges).
  { unfold runs, worker_runs. by rewrite <- list_fmap_compose. }
  fold runs in Hperm. rewrite Hout in Hperm |- *.
  assert (Hsets : sets (trace w) = rs).
  { rewrite Htrace, sets_app, sets_starts.
    rewrite (sets_app [_; _]), (sets_app (_ <$> rs)), (sets_app [_; _; _; _]).
    rewrite sets_Set, sets_joins. cbn. by rewrite app_nil_r. }
  rewrite Hsets.
  assert (Hfull : Forall (λ r, length r ≤ length (puts (task r).1)) ranges).
  { apply every_part_full; [intros r; apply task_puts_length|].
    rewrite Hcat, Hperm, length_app. fold N in Hlen. lia. }
  apply full_ranges in Hfull as [Hall (us & Hus & Hrecords0)].
  assert (Hrecords : concat ((λ r, puts (task r).1) <$> ranges)
                     = record processor corpus frame_size hop_size sr <$> us)
    by exact Hrecords0.
  clear Hrecords0. rewrite Hcat in Hus.
  pose proof (resolves_fun _ _ _ _ Hus (resolves_all corpus Hnd)) as ->.
  assert (Hrest : concat (pending w) = []).
  { apply nil_length_inv. apply (f_equal length) in Hrecords.
    rewrite Hperm, length_app, !length_fmap in Hrecords.
    unfold keys in Hlen. rewrite length_fmap in Hlen. lia. }
  rewrite Hrest, app_nil_r in Hperm.
  assert (Hkeys : (record processor corpus frame_size hop_size sr
                     <$> (utterances corpus).*2).*1 = keys corpus).
  { rewrite record_fst. apply (resolves_idx corpus); [done|]. by apply resolves_all. }
  assert (Hentries : containers.entries c
                     = list_to_map (record processor corpus frame_size hop_size sr
                                      <$> (utterances corpus).*2)).
  { rewrite Hc. cbn [containers.entries]. rewrite foldl_insert_list_to_map.
    symmetry. apply list_to_map_proper; [by rewrite Hkeys|].
    by rewrite reverse_Permutation, <- Hperm, Hrecords. }
  split_and!.
  - unfold runs, worker_runs. fold ranges. apply Forall2_fmap_r, Forall_Forall2_diag.
    eapply Forall_impl; [exact Hall|]. intros r (Hnone & us' & Hus' & Hputs).
    split; [done|].
    etrans; [exact (f_equal (fmap fst) Hputs)|]. rewrite record_fst.
    by apply (resolves_idx corpus).
  - done.
  - by rewrite <- Hperm.
  - done.
  - by rewrite Hc.
  - by rewrite Hentries, dom_list_to_map_L, Hkeys.
  - rewrite Hentries, map_size_list_to_map by (by rewrite Hkeys).
    rewrite !length_fmap. unfold N, keys. by rewrite length_fmap.
  - intros k u Hin. rewrite Hentries.
    apply elem_of_list_to_map_1; [by rewrite Hkeys|].
    apply list_elem_of_fmap. exists u. split.
    + unfold record. f_equal.
      symmetry. by apply (proj1 (Forall_forall _ _) Hidx (k, u)).
    + apply list_elem_of_fmap. by exists (k, u).
Qed.

Lemma uniform3_wf : corpus_wf Samples.uniform3.
Proof.
  split.
  - apply (bool_decide_unpack _). by vm_compute.
  - repeat constructor.
Defined.

Lemma late_first_returns :
  Samples.late_first = (Samples.late_first.1, inr Samples.late_first_container).
Proof. by vm_compute. Defined.

Lemma container_one_entry_per_identifier_witness :
  dom (containers.entries Samples.late_first_container)
  = list_to_set (keys Samples.uniform3) ∧
  size (containers.entries Samples.late_first_container) = 3.
Proof.
  pose proof (container_one_entry_per_identifier Samples.tagging Samples.uniform3
                "out.hdf5" 2 400 160 None [1; 1; 0] _ _
                uniform3_wf late_first_returns) as H.
  destruct H as (_ & _ & _ & _ & _ & Hdom & Hsize & _).
  split; [exact Hdom | exact Hsize].
Defined.

Lemma py_or_forced r : py_or (Some r) r = r.
Proof. unfold py_or. by destruct (r =? 0)%Z. Qed.

Lemma first_sampling_rate_forced corpus ids r rate :
  first_sampling_rate corpus ids (Some r) = inr rate → rate = r.
Proof. intros H. by simplify_eq/=. Qed.

Lemma first_sampling_rate_None corpus ids rate :
  first_sampling_rate corpus ids None = inr rate →
  ∃ first rest u, ids = first :: rest ∧ get_utterance corpus first = inr u ∧
                  rate = sampling_rate u.
Proof.
  unfold first_sampling_rate. destruct ids as [|first rest]; [done|]. simpl.
  destruct (get_utterance corpus first) as [e|u] eqn:Hu; [done|].
  intros ?; simplify_eq. by exists first, rest, u.
Qed.

(** C4: with fewer than two workers [process_corpus] raises the
    configuration error and leaves the world as it found it: no worker
    is started, no container created or opened, nothing is read from
    the queue. *)
Theorem too_few_workers {Feature} (processor : Processor Feature)
    (corpus : Corpus) (output_path : string) (num_workers frame_size hop_size : Z)
    (sr : option Z) (w : World Feature) (sched : list nat) :
  (num_workers < 2)%Z →
  process_corpus processor corpus output_path num_workers frame_size hop_size sr w
  = (w, inl (Raise ConfigurationError)) ∧
  run processor corpus output_path num_workers frame_size hop_size sr sched
  = (mkWorld [] [] sched, inl (Raise ConfigurationError)).
Proof.
  intros HW. unfold run, process_corpus.
  destruct (Z.ltb_spec num_workers 2); [done | lia].
Qed.

Lemma too_few_workers_witness :
  run Samples.tagging Samples.uniform3 "out.hdf5" 1 400 160 None [0; 1]
  = (mkWorld [] [] [0; 1], inl (Raise ConfigurationError)).
Proof.
  refine (proj2 (too_few_workers Samples.tagging Samples.uniform3 "out.hdf5"
                   1 400 160 None (mkWorld [] [] []) [0; 1] _)).
  lia.
Defined.

(** C5: the container a run returns carries as [frame_size] and
    [hop_size] the two outputs of the processor's [frame_transform] on
    the configured sizes, and as [sampling_rate] the forced rate if
    there is one, else the rate of the utterance under the first
    identifier of the corpus; in a corpus whose utterances all report
    one rate that is this rate. *)
Theorem final_metadata {Feature} (processor : Processor Feature)
    (corpus : Corpus) (output_path : string) (num_workers frame_size hop_size : Z)
    (sr : option Z) (sched : list nat) (w : World Feature)
    (c : containers.FeatureContainer Feature) :
  run processor corpus output_path num_workers frame_size hop_size sr sched
  = (w, inr c) →
  containers.frame_size c = Some (frame_transform processor frame_size hop_size).1 ∧
  containers.hop_size c = Some (frame_transform processor frame_size hop_size).2 ∧
  (∀ r, sr = Some r → containers.sampling_rate c = Some r) ∧
  (sr = None →
     ∃ first rest u,
       keys corpus = first :: rest ∧
       get_utterance corpus first = inr u ∧
       containers.sampling_rate c = Some (sampling_rate u)) ∧
  (sr = None →
     ∀ R, Forall (λ kv, sampling_rate kv.2 = R) (utterances corpus) →
          containers.sampling_rate c = Some R).
Proof.
  intros Hrun.
  apply run_returned in Hrun as (_ & rs & rate & _ & _ & _ & Hrate & _ & ->).
  cbn [containers.frame_size containers.hop_size containers.sampling_rate].
  split_and!; try done.
  - intros r ->. apply first_sampling_rate_forced in Hrate as ->.
    by rewrite py_or_forced.
  - intros ->. apply first_sampling_rate_None in Hrate
      as (first & rest & u & Hkeys & Hu & ->).
    by exists first, rest, u.
  - intros -> R Hall. apply first_sampling_rate_None in Hrate
      as (first & rest & u & Hkeys & Hu & ->).
    simpl. f_equal.
    unfold get_utterance in Hu.
    destruct (assoc first (utterances corpus)) eqn:Ha; [|done]. simplify_eq.
    apply assoc_elem_of in Ha.
    by apply (proj1 (Forall_forall _ _) Hall (first, u)).
Qed.

Lemma final_metadata_witness :
  containers.frame_size Samples.late_first_container = Some 1%Z ∧
  containers.hop_size Samples.late_first_container = Some 1%Z ∧
  containers.sampling_rate Samples.late_first_container = Some 16000%Z.
Proof.
  pose proof (final_metadata Samples.tagging Samples.uniform3 "out.hdf5"
                2 400 160 None [1; 1; 0] _ _ late_first_returns) as H.
  destruct H as (Hf & Hh & _ & _ & Hr).
  split_and!; [exact Hf | exact Hh |].
  apply Hr; [reflexivity | repeat constructor].
Defined.

(** C8: the trace of a run that returns is: the workers are started,
    the container is created and opened, exactly [N] records are
    written, then frame size, hop size and sampling rate are assigned
    once each, then the container is closed, and only then the workers
    are joined, in the order of their creation; the container returned
    is closed. *)
Theorem container_lifecycle {Feature} (processor : Processor Feature)
    (corpus : Corpus) (output_path : string) (num_workers frame_size hop_size : Z)
    (sr : option Z) (sched : list nat) (w : World Feature)
    (c : containers.FeatureContainer Feature) :
  run processor corpus output_path num_workers frame_size hop_size sr sched
  = (w, inr c) →
  ∃ rs tf_frame_size tf_hop_size rate,
    length rs = length (keys corpus) ∧
    trace w = starts (keys corpus) num_workers
              ++ [Create output_path; Open]
              ++ ((λ r, Set_ r.1 r.2) <$> rs)
              ++ [SetFrameSize tf_frame_size; SetHopSize tf_hop_size;
                  SetSamplingRate rate]
              ++ [Close]
              ++ (Join <$> py_range num_workers) ∧
    containers.is_open c = false.
Proof.
  intros Hrun.
  apply run_returned in Hrun as (_ & rs & rate & Hlen & _ & _ & _ & Htrace & ->).
  exists rs, (frame_transform processor frame_size hop_size).1,
         (frame_transform processor frame_size hop_size).2, (py_or sr rate).
  split_and!; done.
Qed.

Lemma container_lifecycle_witness :
  ∃ rs tf_frame_size tf_hop_size rate,
    length rs = length (keys Samples.uniform3) ∧
    trace Samples.late_first.1
    = starts (keys Samples.uniform3) 2
      ++ [Create "out.hdf5"; Open]
      ++ ((λ r, Set_ r.1 r.2) <$> rs)
      ++ [SetFrameSize tf_frame_size; SetHopSize tf_hop_size;
          SetSamplingRate rate]
      ++ [Close]
      ++ (Join <$> py_range 2) ∧
    containers.is_open Samples.late_first_container = false.
Proof.
  exact (container_lifecycle Samples.tagging Samples.uniform3 "out.hdf5"
           2 400 160 None [1; 1; 0] _ _ late_first_returns).
Defined.

Lemma py_slice_nil {A} (a b : Z) : py_slice ([] : list A) a b = [].
Proof. unfold py_slice. by rewrite drop_nil, take_nil. Qed.

Lemma worker_utts_nil num_workers i : worker_utts [] num_workers i = [].
Proof. apply py_slice_nil. Qed.

(** C10: on an empty corpus with no forced rate and at least two
    workers, [process_corpus] starts its workers on empty ranges, creates
    and opens the container, writes nothing, and then raises
    [IndexError] on the first element of the empty identifier list: no
    property of the container is assigned and the container is not
    closed; whatever the number of workers, such a run returns no
    container. *)
Theorem empty_corpus_raises {Feature} (processor : Processor Feature)
    (output_path : string) (num_workers frame_size hop_size : Z)
    (sched : list nat) :
  (2 ≤ num_workers)%Z →
  run processor (mkCorpus []) output_path num_workers frame_size hop_size None sched
  = (mkWorld (((λ i, Start i []) <$> py_range num_workers)
                ++ [Create output_path; Open])
             ((λ _, []) <$> py_range num_workers)
             sched,
     inl (Raise IndexError)) ∧
  (∀ num_workers' sched' w c,
     run processor (mkCorpus []) output_path num_workers' frame_size hop_size
         None sched' ≠ (w, inr c)).
Proof.
  intros HW. split.
  - unfold run, process_corpus.
    destruct (Z.ltb_spec num_workers 2); [lia|]. cbv zeta.
    erewrite bind_inr;
      [|apply (start_loop
                 (λ r, worker_process_utterances_task processor r (mkCorpus [])
                         frame_size hop_size None)
                 (worker_utts (keys (mkCorpus [])) num_workers))].
    erewrite bind_inr; [|apply container_new_eq].
    erewrite bind_inr; [|apply container_open_eq].
    erewrite bind_inr; [|reflexivity].
    erewrite bind_inl; [|reflexivity].
    cbn [trace pending schedule app]. f_equal. f_equal.
    + rewrite <- app_assoc. f_equal. apply list_fmap_ext.
      intros j i _. by rewrite worker_utts_nil.
    + apply list_fmap_ext. intros j i _. by rewrite worker_utts_nil.
  - intros W' sched' w c Hrun.
    apply run_returned in Hrun as (_ & rs & rate & _ & _ & _ & Hrate & _).
    discriminate Hrate.
Qed.

Lemma empty_corpus_raises_witness :
  run Samples.tagging Samples.empty "out.hdf5" 2 400 160 None [0; 1]
  = (mkWorld [Start 0 []; Start 1 []; Create "out.hdf5"; Open] [[]; []] [0; 1],
     inl (Raise IndexError)).
Proof.
  refine (proj1 (empty_corpus_raises Samples.tagging "out.hdf5" 2 400 160
                   [0; 1] _)).
  lia.
Defined.

(** ** Runs that return *)

(** The conclusions about runs that return are not empty: when every
    worker ends normally and the final sampling rate can be derived
    (a rate is forced, or the corpus is not empty), the run returns a
    container, whatever the order of arrival. *)
Lemma run_returns {Feature} (processor : Processor Feature)
    (corpus : Corpus) (output_path : string) (num_workers frame_size hop_size : Z)
    (sr : option Z) (sched : list nat) :
  (2 ≤ num_workers)%Z →
  Forall (λ r : list (WorkerEvent Feature) * option exn, r.2 = None)
         (worker_runs processor corpus num_workers frame_size hop_size sr) →
  is_Some sr ∨ utterances corpus ≠ [] →
  ∃ w c, run processor corpus output_path num_workers frame_size hop_size sr sched
         = (w, inr c).
Proof.
  intros HW Hall Hrate. unfold run, process_corpus.
  destruct (Z.ltb_spec num_workers 2); [lia|]. cbv zeta.
  erewrite bind_inr;
    [|apply (start_loop
               (λ r, worker_process_utterances_task processor r corpus
                       frame_size hop_size sr)
               (worker_utts (keys corpus) num_workers))].
  erewrite bind_inr; [|apply container_new_eq].
  erewrite bind_inr; [|apply container_open_eq].
  cbn [trace pending schedule].
  match goal with
  | |- context [(for_ ?l ?body ?c0 ≫= _) ?w0] =>
      pose proof (collect_loop l c0 w0) as Hloop;
      destruct (for_ l body c0 w0) as [w4 [[e|]|c4]] eqn:Hcollect
  end.
  - done.
  - exfalso. cbn [pending app] in Hloop.
    rewrite py_range_length, Nat2Z.id in Hloop.
    assert (Hlen : length (keys corpus)
                   ≤ length (concat ((λ i, puts (worker_process_utterances_task
                       processor (worker_utts (keys corpus) num_workers i) corpus
                       frame_size hop_size sr).1) <$> py_range num_workers)));
      [|lia].
    clear Hloop Hcollect.
    rewrite <- (worker_ranges_concat (keys corpus) (Z.to_nat num_workers)) at 1 by lia.
    rewrite Z2Nat.id by lia.
    unfold worker_runs, worker_ranges in *. revert Hall.
    induction (py_range num_workers) as [|i l IH]; [done|].
    rewrite !fmap_cons. intros [Hi Hl]%Forall_cons. cbn [concat].
    rewrite !length_app. specialize (IH Hl).
    destruct (worker_loop_shape processor corpus frame_size hop_size sr (-1)
                (worker_utts (keys corpus) num_workers i)) as (us & _ & Hshape).
    unfold worker_process_utterances_task in *. cbn beta in Hi. rewrite Hi in Hshape.
    destruct Hshape as [Hlen ->].
    rewrite puts_app, puts_processed, length_app, length_fmap. lia.
  - erewrite bind_inr; [|exact Hcollect].
    assert (∃ rate, first_sampling_rate corpus (keys corpus) sr = inr rate)
      as [rate Hr].
    { destruct Hrate as [[r ->]|Hne]; [by exists r|].
      destruct sr as [r|]; [by exists r|].
      unfold first_sampling_rate, keys, get_utterance.
      destruct (utterances corpus) as [|[k u] d]; [done|]. cbn.
      destruct (decide (k = k)); [by eexists | done]. }
    rewrite Hr.
    destruct (frame_transform processor frame_size hop_size).
    erewrite bind_inr; [|reflexivity].
    do 3 (erewrite bind_inr; [|apply emit_eq]).
    erewrite bind_inr; [|apply container_close_eq].
    erewrite bind_inr; [|apply join_loop].
    eexists _, _. reflexivity.
Qed.

(** ** Arrival orders *)

(** Every interleaving of the workers' records is the arrival order
    under some schedule, so what holds of the runs under all schedules
    holds whatever the order of arrival. *)
Lemma every_order_scheduled {R} (pending : list (list R)) (q : list R) :
  interleaving pending q → ∃ sched, drain (length q) sched pending = q.
Proof.
  induction 1 as [pending|i pending x pending' q Htake _ [sched IH]].
  - by exists [].
  - exists (i :: sched). simpl. by rewrite Htake, IH.
Qed.

(** The records a returning run wrote are the first [N] arrivals under
    its schedule, in that order. *)
Lemma run_sets {Feature} (processor : Processor Feature)
    (corpus : Corpus) (output_path : string) (num_workers frame_size hop_size : Z)
    (sr : option Z) (sched : list nat) (w : World Feature)
    (c : containers.FeatureContainer Feature) :
  run processor corpus output_path num_workers frame_size hop_size sr sched
  = (w, inr c) →
  sets (trace w)
  = drain (length (keys corpus)) sched
      ((λ r, puts r.1)
         <$> worker_runs processor corpus num_workers frame_size hop_size sr).
Proof.
  intros Hrun.
  apply run_returned in Hrun as (_ & rs & rate & _ & <- & _ & _ & -> & _).
  rewrite sets_app, sets_starts.
  rewrite (sets_app [_; _]), (sets_app (_ <$> rs)), (sets_app [_; _; _; _]).
  rewrite sets_Set, sets_joins. cbn. by rewrite app_nil_r.
Qed.

(** ** Sample runs *)

Example ranges_of_ten :
  worker_ranges Samples.ten_ids 3
  = [["u0"; "u1"; "u2"]; ["u3"; "u4"; "u5"]; ["u6"; "u7"; "u8"; "u9"]].
Proof. reflexivity. Qed.

Example ranges_fewer_than_workers :
  worker_ranges ["a"; "b"] 3 = [[]; []; ["a"; "b"]].
Proof. reflexivity. Qed.

Example ten_utterances_three_workers :
  let r := run Samples.tagging Samples.uniform10 "out.hdf5" 3 400 160 None
               [2; 0; 1; 2; 2; 1; 0; 0; 1; 2] in
  (sets (trace r.1)).*1
  = ["u6"; "u0"; "u3"; "u7"; "u8"; "u4"; "u1"; "u2"; "u5"; "u9"] ∧
  match r.2 with
  | inr c => size (containers.entries c) = 10 ∧
             containers.sampling_rate c = Some 16000%Z
  | inl _ => False
  end.
Proof. by vm_compute. Qed.

(** A rate that is not positive hides the change after it, a positive
    one does not. *)
Example zero_between_raises_at_zero :
  worker_process_utterances_task Samples.tagging ["a"; "b"; "c"]
                                 Samples.zero_between 400 160 None
  = (processed Samples.tagging Samples.zero_between 400 160 None
       [Samples.utt "a" 16000],
     Some (InconsistentSampleRateError (Samples.utt "b" 0))).
Proof. reflexivity. Qed.

(** A worker that raises leaves the collector waiting for a record that
    never arrives. *)
Example failed_worker_blocks_collector :
  (run Samples.tagging Samples.mixed3 "out.hdf5" 2 400 160 None [1; 1; 0]).2
  = inl Block.
Proof. reflexivity. Qed.

(** A forced rate of 0 is still the rate recorded. *)
Example forced_zero_rate :
  match (run Samples.tagging Samples.mixed3 "out.hdf5" 2 400 160 (Some 0%Z) []).2 with
  | inr c => containers.sampling_rate c = Some 0%Z
  | inl _ => False
  end.
Proof. by vm_compute. Qed.

(** * Further properties of the module *)

(** ** How a run ends *)

Section Outcomes.
Context {Feature : Type}.
Variable processor : Processor Feature.
Variable corpus : Corpus.
Variable output_path : string.
Variables num_workers frame_size hop_size : Z.
Variable sr : option Z.

Local Abbreviation outs :=
  ((λ i, puts (worker_process_utterances_task processor
                 (worker_utts (keys corpus) num_workers i) corpus
                 frame_size hop_size sr).1) <$> py_range num_workers).

(** The draining loop when the workers have too few records: every
    record they do have is written, then the loop blocks. *)
Lemma collect_loop_blocks {X} (l : list X) (c : containers.FeatureContainer Feature)
    (w : World Feature) :
  length (concat (pending w)) < length l →
  ∃ rs w',
    for_ l (λ _ feat_container,
              r ← queue_get; container_set r.1 r.2 feat_container) c w
    = (w', inl Block) ∧
    rs ≡ₚ concat (pending w) ∧
    trace w' = trace w ++ ((λ r, Set_ r.1 r.2) <$> rs).
Proof.
  revert c w. induction l as [|x l IH]; intros c w Hlt; [simpl in Hlt; lia|].
  cbn [for_].
  destruct (next_arrival (schedule w) (pending w)) as [[[r pending']|] schedule'] eqn:Hn.
  - assert (Hstep : (r ← queue_get; container_set r.1 r.2 c) w
                    = (mkWorld (trace w ++ [Set_ r.1 r.2]) pending' schedule',
                       inr (containers.set r.1 r.2 c))).
    { unfold mbind, M_bind, queue_get. by rewrite Hn. }
    rewrite (bind_inr _ _ _ _ _ Hstep).
    apply next_arrival_Some in Hn.
    destruct (IH (containers.set r.1 r.2 c)
                 (mkWorld (trace w ++ [Set_ r.1 r.2]) pending' schedule'))
      as (rs & w' & Heq & Hperm & Htrace).
    { cbn [pending]. apply Permutation_length in Hn. simpl in *. lia. }
    exists (r :: rs), w'. cbn [trace pending] in *. split_and!.
    + done.
    + by rewrite Hn, Hperm.
    + by rewrite Htrace, <- app_assoc.
  - assert (Hstep : (r ← queue_get; container_set r.1 r.2 c) w = (w, inl Block)).
    { unfold mbind, M_bind, queue_get. by rewrite Hn. }
    rewrite (bind_inl _ _ _ _ _ Hstep).
    apply next_arrival_None in Hn. exists [], w. rewrite Hn.
    split_and!; [done | done | by rewrite app_nil_r].
Qed.

(** A failed derivation of the final sampling rate is the out-of-range
    access on an empty identifier list, with no rate forced. *)
Lemma first_sampling_rate_inl e :
  first_sampling_rate corpus (keys corpus) sr = inl e →
  sr = None ∧ utterances corpus = [] ∧ e = IndexError.
Proof.
  unfold first_sampling_rate, keys, get_utterance.
  destruct sr as [r|]; [done|].
  destruct (utterances corpus) as [|[k u] d]; [by intros ?; simplify_eq/=|].
  cbn. by destruct (decide (k = k)).
Qed.

(** The three ways a run with at least two workers can end. *)
Lemma run_cases sched :
  (2 ≤ num_workers)%Z →
  let r := run processor corpus output_path num_workers frame_size hop_size
               sr sched in
  (∃ c, r.2 = inr c) ∨
  (r.2 = inl Block ∧
   ∃ rs, rs ≡ₚ concat outs ∧ length rs < length (keys corpus) ∧
         trace r.1 = starts (keys corpus) num_workers
                     ++ [Create output_path; Open]
                     ++ ((λ r, Set_ r.1 r.2) <$> rs)) ∨
  (r.2 = inl (Raise IndexError) ∧ sr = None ∧ utterances corpus = [] ∧
   trace r.1 = starts (keys corpus) num_workers ++ [Create output_path; Open]).
Proof.
  intros HW. unfold run, process_corpus.
  destruct (Z.ltb_spec num_workers 2); [lia|]. cbv zeta.
  erewrite bind_inr;
    [|apply (start_loop
               (λ r, worker_process_utterances_task processor r corpus
                       frame_size hop_size sr)
               (worker_utts (keys corpus) num_workers))].
  erewrite bind_inr; [|apply container_new_eq].
  erewrite bind_inr; [|apply container_open_eq].
  cbn [trace pending schedule].
  match goal with
  | |- context [(for_ ?l ?body ?c0 ≫= _) ?w0] =>
      pose proof (collect_loop l c0 w0) as Hloop;
      pose proof (collect_loop_blocks l c0 w0) as Hblocks;
      destruct (for_ l body c0 w0) as [w4 [[e|]|c4]] eqn:Hcollect
  end.
  - done.
  - right. left. cbn [pending app] in Hloop, Hblocks.
    rewrite py_range_length, Nat2Z.id in Hloop, Hblocks.
    destruct (Hblocks Hloop) as (rs & w' & Heq & Hperm & Htrace).
    simplify_eq. erewrite bind_inl; [|exact Hcollect]. cbn [fst snd].
    split; [done|]. exists rs. split_and!.
    + done.
    + apply Permutation_length in Hperm. lia.
    + rewrite Htrace. cbn [trace app]. unfold starts. by rewrite <- !app_assoc.
  - erewrite bind_inr; [|exact Hcollect].
    destruct (first_sampling_rate corpus (keys corpus) sr) as [e|rate] eqn:Hr.
    + right. right. apply first_sampling_rate_inl in Hr as (-> & Hempty & ->).
      erewrite bind_inl; [|reflexivity]. cbn [fst snd].
      destruct Hloop as (rs & Hlen & _ & _ & Htrace & _).
      revert Hlen Htrace. unfold keys. rewrite Hempty. cbn.
      intros Hlen ->. destruct rs; [|done]. cbn. rewrite app_nil_r.
      split_and!; try done. unfold starts. by rewrite <- !app_assoc.
    + left.
      destruct (frame_transform processor frame_size hop_size).
      erewrite bind_inr; [|reflexivity].
      do 3 (erewrite bind_inr; [|apply emit_eq]).
      erewrite bind_inr; [|apply container_close_eq].
      erewrite bind_inr; [|apply join_loop].
      by eexists.
Qed.

End Outcomes.

Section OutcomeFacts.
Context {Feature : Type}.
Variable processor : Processor Feature.
Variable corpus : Corpus.
Variable output_path : string.
Variables num_workers frame_size hop_size : Z.
Variable sr : option Z.

Local Abbreviation runs :=
  (worker_runs processor corpus num_workers frame_size hop_size sr).
Local Abbreviation task :=
  (λ range, worker_process_utterances_task processor range corpus
                                           frame_size hop_size sr).

Lemma runs_outputs :
  (λ r : list (WorkerEvent Feature) * option exn, puts r.1) <$> runs
  = (λ r, puts (task r).1) <$> worker_ranges (keys corpus) num_workers.
Proof. unfold worker_runs. by rewrite <- list_fmap_compose. Qed.

(** The workers of a run that returned all ended normally. *)
Lemma returned_all_normal sched w c :
  run processor corpus output_path num_workers frame_size hop_size sr sched
  = (w, inr c) →
  Forall (λ r : list (WorkerEvent Feature) * option exn, r.2 = None) runs.
Proof.
  intros Hrun.
  apply run_returned in Hrun as (HW & rs & rate & Hlen & _ & Hperm & _).
  rewrite runs_outputs in Hperm.
  assert (Hfull : Forall (λ r, length r ≤ length (puts (task r).1))
                         (worker_ranges (keys corpus) num_workers)).
  { apply every_part_full; [intros r; apply task_puts_length|].
    rewrite <- (Z2Nat.id num_workers) at 1 by lia.
    rewrite worker_ranges_concat by lia.
    rewrite Hperm, length_app. lia. }
  apply full_ranges in Hfull as [Hall _].
  unfold worker_runs. apply Forall_fmap.
  eapply Forall_impl; [exact Hall|]. by intros r [Hnone _].
Qed.

(** A worker that raised put fewer records than its range has items. *)
Lemma raised_worker_short (ranges : list (list string)) :
  Exists (λ r, (task r).2 ≠ None) ranges →
  length (concat ((λ r, puts (task r).1) <$> ranges)) < length (concat ranges).
Proof.
  induction 1 as [r ranges Hr|r ranges _ IH];
    rewrite fmap_cons; cbn [concat]; rewrite !length_app.
  - pose proof (concat_fmap_length_le (λ r, puts (task r).1) ranges
                  (λ r, task_puts_length processor corpus frame_size hop_size sr r)).
    destruct (worker_loop_shape processor corpus frame_size hop_size sr (-1) r)
      as (us & _ & Hshape).
    unfold worker_process_utterances_task in *.
    destruct (worker_loop processor corpus frame_size hop_size sr (-1) r).2;
      [|done].
    destruct Hshape as [Hlt ->]. rewrite puts_processed, length_fmap. lia.
  - pose proof (task_puts_length processor corpus frame_size hop_size sr r).
    cbn beta in *. lia.
Qed.

Lemma empty_ranges_normal :
  utterances corpus = [] →
  Forall (λ r : list (WorkerEvent Feature) * option exn, r.2 = None) runs.
Proof.
  intros Hempty. unfold worker_runs, worker_ranges, keys. rewrite Hempty.
  apply Forall_fmap, Forall_fmap, Forall_forall. intros i _. cbn.
  by rewrite worker_utts_nil.
Qed.

End OutcomeFacts.

(** X1: when some worker raises, the run never returns and raises
    nothing: the parent writes every record the workers did deliver,
    fewer than [N], and then waits forever on the queue, with the
    container created and opened but not closed, no property assigned
    and no worker joined. *)
Theorem raised_worker_blocks_run {Feature} (processor : Processor Feature)
    (corpus : Corpus) (output_path : string) (num_workers frame_size hop_size : Z)
    (sr : option Z) (sched : list nat) :
  (2 ≤ num_workers)%Z →
  Exists (λ r : list (WorkerEvent Feature) * option exn, r.2 ≠ None)
         (worker_runs processor corpus num_workers frame_size hop_size sr) →
  let r := run processor corpus output_path num_workers frame_size hop_size
               sr sched in
  r.2 = inl Block ∧
  ∃ rs,
    rs ≡ₚ concat ((λ r : list (WorkerEvent Feature) * option exn, puts r.1)
                    <$> worker_runs processor corpus num_workers
                                    frame_size hop_size sr) ∧
    length rs < length (keys corpus) ∧
    trace r.1 = starts (keys corpus) num_workers
                ++ [Create output_path; Open]
                ++ ((λ r, Set_ r.1 r.2) <$> rs).
Proof.
  intros HW Hex r.
  assert (Hnot : ¬ Forall (λ r : list (WorkerEvent Feature) * option exn,
                             r.2 = None)
                   (worker_runs processor corpus num_workers frame_size hop_size sr)).
  { intros Hall. apply Exists_exists in Hex as (x & Hx & Hne).
    exact (Hne (proj1 (Forall_forall _ _) Hall x Hx)). }
  destruct (run_cases processor corpus output_path num_workers frame_size
              hop_size sr sched HW) as [[c Hc]|[[Hb (rs & Hperm & Hlen & Ht)]|(_ & _ & He & _)]].
  - destruct Hnot. eapply (returned_all_normal _ _ output_path _ _ _ _ sched r.1 c).
    fold r in Hc |- *. destruct r as [w o]. simpl in *. by rewrite Hc.
  - split; [done|]. exists rs. split_and!; [|done|done].
    rewrite Hperm. unfold worker_runs, worker_ranges.
    by rewrite <- !list_fmap_compose.
  - destruct Hnot. by apply empty_ranges_normal.
Qed.

Lemma raised_worker_blocks_run_witness :
  (run Samples.tagging Samples.mixed3 "out.hdf5" 2 400 160 None [1; 1; 0]).2
  = inl Block.
Proof.
  refine (proj1 (raised_worker_blocks_run Samples.tagging Samples.mixed3
                   "out.hdf5" 2 400 160 None [1; 1; 0] _ _)).
  - lia.
  - apply Exists_cons_tl, Exists_cons_hd. by vm_compute.
Defined.

(** X2: a run with at least two workers returns a container exactly
    when every worker ends normally and the final sampling rate can be
    derived, that is, a rate is forced or the corpus is not empty; this
    does not depend on the order in which the records arrive. *)
Theorem run_returns_iff {Feature} (processor : Processor Feature)
    (corpus : Corpus) (output_path : string) (num_workers frame_size hop_size : Z)
    (sr : option Z) (sched : list nat) :
  (2 ≤ num_workers)%Z →
  (∃ w c, run processor corpus output_path num_workers frame_size hop_size
              sr sched = (w, inr c))
  ↔ Forall (λ r : list (WorkerEvent Feature) * option exn, r.2 = None)
           (worker_runs processor corpus num_workers frame_size hop_size sr)
    ∧ (is_Some sr ∨ utterances corpus ≠ []).
Proof.
  intros HW. split.
  - intros (w & c & Hrun). split; [by eapply returned_all_normal|].
    apply run_returned in Hrun as (_ & rs & rate & _ & _ & _ & Hrate & _).
    destruct sr as [r|]; [left; by eexists|]. right. intros Hempty.
    unfold first_sampling_rate, keys in Hrate. by rewrite Hempty in Hrate.
  - intros [Hall Hrate]. by apply run_returns.
Qed.

Lemma run_returns_iff_witness :
  ∃ w c, run Samples.tagging Samples.uniform3 "out.hdf5" 2 400 160 None [1; 1; 0]
         = (w, inr c).
Proof.
  apply (run_returns_iff Samples.tagging Samples.uniform3 "out.hdf5" 2 400 160
           None [1; 1; 0]); [lia|].
  split; [by repeat constructor | by right].
Defined.

(** X3: the only exceptions [process_corpus] itself raises are the
    configuration error, with fewer than two workers and before
    anything is done, and the [IndexError] on an empty corpus with no
    forced rate, after the container was opened; an error of a worker
    never reaches the caller. *)
Theorem run_raises_only {Feature} (processor : Processor Feature)
    (corpus : Corpus) (output_path : string) (num_workers frame_size hop_size : Z)
    (sr : option Z) (sched : list nat) (w : World Feature) (e : exn) :
  run processor corpus output_path num_workers frame_size hop_size sr sched
  = (w, inl (Raise e)) →
  ((num_workers < 2)%Z ∧ e = ConfigurationError ∧ trace w = []) ∨
  ((2 ≤ num_workers)%Z ∧ e = IndexError ∧ sr = None ∧ utterances corpus = [] ∧
   trace w = starts (keys corpus) num_workers ++ [Create output_path; Open]).
Proof.
  intros Hrun. destruct (Z.ltb_spec num_workers 2) as [Hlt|HW].
  - left. unfold run, process_corpus in Hrun.
    destruct (Z.ltb_spec num_workers 2); [|lia].
    unfold raise in Hrun. by simplify_eq.
  - right.
    destruct (run_cases processor corpus output_path num_workers frame_size
                hop_size sr sched HW) as [[c Hc]|[[Hb _]|(He & Hsr & Hempty & Ht)]];
      rewrite Hrun in *; simpl in *; simplify_eq. done.
Qed.

Lemma run_raises_only_witness :
  (run Samples.tagging Samples.empty "out.hdf5" 2 400 160 None []).2
  = inl (Raise IndexError) ∧
  utterances Samples.empty = [].
Proof.
  split; [reflexivity|].
  destruct (run_raises_only Samples.tagging Samples.empty "out.hdf5" 2 400 160
              None []
              (mkWorld [Start 0 []; Start 1 []; Create "out.hdf5"; Open]
                       [[]; []] [])
              IndexError eq_refl)
    as [(Hlt & _)|(_ & _ & _ & Hempty & _)]; [lia | exact Hempty].
Defined.

Lemma forced_workers_normal {Feature} (processor : Processor Feature)
    (corpus : Corpus) (num_workers frame_size hop_size r : Z) :
  Forall (λ r : list (WorkerEvent Feature) * option exn, r.2 = None)
         (worker_runs processor corpus num_workers frame_size hop_size (Some r)).
Proof.
  unfold worker_runs, worker_ranges. apply Forall_fmap, Forall_fmap, Forall_forall.
  intros i _. cbn.
  destruct (resolves_keys corpus (worker_utts (keys corpus) num_workers i))
    as [us Hus]; [apply py_slice_subseteq|].
  unfold worker_process_utterances_task.
  by rewrite (loop_forced _ _ _ _ r (-1)%Z _ us Hus).
Qed.

(** X4: with a forced rate and at least two workers every run returns
    a container, whatever the rates of the utterances and whatever the
    order of arrival; the rate recorded is the forced one, and on an
    empty corpus the container returned is empty and closed. *)
Theorem forced_rate_always_returns {Feature} (processor : Processor Feature)
    (corpus : Corpus) (output_path : string) (num_workers frame_size hop_size r : Z)
    (sched : list nat) :
  (2 ≤ num_workers)%Z →
  ∃ w c,
    run processor corpus output_path num_workers frame_size hop_size (Some r) sched
    = (w, inr c) ∧
    containers.sampling_rate c = Some r ∧
    containers.is_open c = false ∧
    (utterances corpus = [] → containers.entries c = ∅).
Proof.
  intros HW.
  destruct (run_returns processor corpus output_path num_workers frame_size
              hop_size (Some r) sched HW) as (w & c & Hrun).
  { apply forced_workers_normal. }
  { left. by eexists. }
  exists w, c. split; [done|].
  apply run_returned in Hrun as (_ & rs & rate & Hlen & _ & _ & Hrate & _ & ->).
  cbn [containers.sampling_rate containers.is_open containers.entries].
  apply first_sampling_rate_forced in Hrate as ->. rewrite py_or_forced.
  split_and!; try done.
  intros Hempty. unfold keys in Hlen. rewrite Hempty in Hlen.
  by destruct rs.
Qed.

Lemma forced_rate_always_returns_witness :
  ∃ w c,
    run Samples.tagging Samples.empty "out.hdf5" 2 400 160 (Some 8000%Z) [0]
    = (w, inr c) ∧
    containers.sampling_rate c = Some 8000%Z ∧
    containers.is_open c = false ∧
    (utterances Samples.empty = [] → containers.entries c = ∅).
Proof.
  apply (forced_rate_always_returns Samples.tagging Samples.empty "out.hdf5"
           2 400 160 8000 [0]).
  lia.
Defined.

(** A loop over identifiers of the corpus whose utterances all report
    the rate [R], entered with a running rate that is unset or [R], ends
    normally. *)
Lemma loop_one_rate {Feature} (processor : Processor Feature) (corpus : Corpus)
    (frame_size hop_size R s : Z) (range : list string) :
  (s ≤ 0)%Z ∨ s = R →
  range ⊆ keys corpus →
  (∀ k u, k ∈ range → get_utterance corpus k = inr u → sampling_rate u = R) →
  (worker_loop processor corpus frame_size hop_size None s range).2 = None.
Proof.
  revert s. induction range as [|k range IH]; intros s Hs Hsub HR; [done|].
  destruct (get_utterance_key corpus k) as (u & Hu & _); [apply Hsub; left|].
  assert (Hrate : sampling_rate u = R) by (apply (HR k u); [left | done]).
  rewrite (worker_loop_step _ _ _ _ _ _ _ _ u (sampling_rate u) Hu)
    by (apply check_passes; by rewrite Hrate).
  cbn [snd]. apply IH.
  - by right.
  - intros k' Hin. apply Hsub. by right.
  - intros k' u' Hin. apply HR. by right.
Qed.

(** X5: the rate check is local to a worker.  When the utterances of
    each range agree on a rate, range by range, every worker ends
    normally and the run returns, also when the rates of different
    ranges differ; the rate recorded is then that of the first
    utterance of the corpus. *)
Theorem rates_checked_per_worker {Feature} (processor : Processor Feature)
    (corpus : Corpus) (output_path : string) (num_workers frame_size hop_size : Z)
    (sched : list nat) (k0 : string) (u0 : Utterance)
    (rest : list (string * Utterance)) :
  (2 ≤ num_workers)%Z →
  utterances corpus = (k0, u0) :: rest →
  Forall (λ range, ∃ R, ∀ k u, k ∈ range → get_utterance corpus k = inr u →
                               sampling_rate u = R)
         (worker_ranges (keys corpus) num_workers) →
  ∃ w c,
    run processor corpus output_path num_workers frame_size hop_size None sched
    = (w, inr c) ∧
    containers.sampling_rate c = Some (sampling_rate u0).
Proof.
  intros HW Hcorpus Hranges.
  destruct (run_returns processor corpus output_path num_workers frame_size
              hop_size None sched HW) as (w & c & Hrun).
  { unfold worker_runs. apply Forall_fmap, Forall_forall. intros range Hin.
    destruct (proj1 (Forall_forall _ _) Hranges range Hin) as [R HR]. cbn.
    apply (loop_one_rate _ _ _ _ R); [left; lia | | done].
    unfold worker_ranges in Hin. apply list_elem_of_fmap in Hin as (i & -> & _).
    apply py_slice_subseteq. }
  { right. by rewrite Hcorpus. }
  exists w, c. split; [done|].
  apply run_returned in Hrun as (_ & rs & rate & _ & _ & _ & Hrate & _ & ->).
  cbn [containers.sampling_rate].
  unfold first_sampling_rate, keys, get_utterance in Hrate.
  rewrite Hcorpus in Hrate. cbn in Hrate.
  destruct (decide (k0 = k0)); [|done]. by simplify_eq.
Qed.

Lemma rates_checked_per_worker_witness :
  sampling_rate (Samples.utt "b" 8000) ≠ sampling_rate (Samples.utt "a" 16000) ∧
  ∃ w c,
    run Samples.tagging MoreSamples.two_rates "out.hdf5" 2 400 160 None [1; 0]
    = (w, inr c) ∧
    containers.sampling_rate c = Some (sampling_rate (Samples.utt "a" 16000)).
Proof.
  split; [by vm_compute|].
  apply (rates_checked_per_worker Samples.tagging MoreSamples.two_rates
           "out.hdf5" 2 400 160 [1; 0] "a" (Samples.utt "a" 16000)
           [("b", Samples.utt "b" 8000)]).
  - lia.
  - reflexivity.
  - repeat constructor.
    + exists 16000%Z. intros k u Hin Hu.
      apply list_elem_of_singleton in Hin as ->. vm_compute in Hu. by simplify_eq.
    + exists 8000%Z. intros k u Hin Hu.
      apply list_elem_of_singleton in Hin as ->. vm_compute in Hu. by simplify_eq.
Defined.

(** ** More on the worker *)

Lemma assoc_None key d : key ∉ d.*1 → assoc key d = None.
Proof.
  induction d as [|[k v] d IH]; simpl; [done|].
  intros Hnot. apply not_elem_of_cons in Hnot as [Hne Hnot].
  case_decide; [by subst | auto].
Qed.

Lemma get_utterance_missing corpus key :
  key ∉ keys corpus → get_utterance corpus key = inl (KeyError key).
Proof. intros H. unfold get_utterance. by rewrite assoc_None. Qed.

Section WorkerMore.
Context {Feature : Type}.
Variable processor : Processor Feature.
Variable corpus : Corpus.
Variables frame_size hop_size : Z.

Local Abbreviation loop := (worker_loop processor corpus frame_size hop_size).
Local Abbreviation done_with sr := (processed processor corpus frame_size hop_size sr).

Lemma loop_missing_key sr s pre us k rest :
  resolves corpus pre us →
  (loop sr s pre).2 = None →
  k ∉ keys corpus →
  loop sr s (pre ++ k :: rest) = (done_with sr us, Some (KeyError k)).
Proof.
  intros Hres. revert s. induction Hres as [|k1 u pre us Hk1 _ IH]; intros s Hnone Hk.
  { simpl. by rewrite get_utterance_missing. }
  destruct (check_sampling_rate sr s u) as [e|s'] eqn:Hc.
  { by rewrite (worker_loop_raise _ _ _ _ _ _ _ _ u e Hk1 Hc) in Hnone. }
  rewrite (worker_loop_step _ _ _ _ _ _ _ _ u s' Hk1 Hc) in Hnone.
  cbn [app]. rewrite (worker_loop_step _ _ _ _ _ _ _ _ u s' Hk1 Hc).
  by rewrite (IH s' Hnone Hk).
Qed.

Lemma processed_no_close sr us : QueueClose ∉ done_with sr us.
Proof.
  induction us as [|u us IH]; [apply not_elem_of_nil|].
  rewrite processed_cons. cbn. by rewrite !not_elem_of_cons.
Qed.

(** When the loop with no forced rate ends normally, in terms of the
    rates alone: the running rate and each rate in turn is unset (not
    positive) or equal to the next. *)
Lemma loop_None_iff s range us :
  resolves corpus range us →
  (loop None s range).2 = None
  ↔ (∀ u, us !! 0 = Some u → (s ≤ 0)%Z ∨ s = sampling_rate u) ∧
    (∀ i u v, us !! i = Some u → us !! S i = Some v →
              (sampling_rate u ≤ 0)%Z ∨ sampling_rate u = sampling_rate v).
Proof.
  intros Hres. revert s. induction Hres as [|k u range us Hk _ IH]; intros s.
  { split; [|done]. intros _. split; intros; simplify_eq/=. }
  split.
  - intros Hnone.
    destruct (check_sampling_rate None s u) as [e|s'] eqn:Hc.
    { by rewrite (worker_loop_raise _ _ _ _ _ _ _ _ u e Hk Hc) in Hnone. }
    rewrite (worker_loop_step _ _ _ _ _ _ _ _ u s' Hk Hc) in Hnone.
    apply check_inr_inv in Hc as [Hs ->].
    apply IH in Hnone as [Hhead Hadj]. split.
    + intros u' ?. by simplify_eq/=.
    + intros [|i] u1 u2 H1 H2; simplify_eq/=; eauto.
  - intros [Hhead Hadj].
    rewrite (worker_loop_step _ _ _ _ _ _ _ _ u (sampling_rate u) Hk)
      by (apply check_passes; by apply Hhead).
    cbn [snd]. apply IH. split.
    + intros v Hv. by apply (Hadj 0 u v).
    + intros i u1 u2 H1 H2. by apply (Hadj (S i) u1 u2).
Qed.

(** The error the loop with no forced rate raises on a range of
    identifiers of the corpus. *)
Lemma loop_Some_inv s range us e :
  resolves corpus range us →
  (loop None s range).2 = Some e →
  (∃ u, us !! 0 = Some u ∧ (0 < s)%Z ∧ s ≠ sampling_rate u ∧
        e = InconsistentSampleRateError u) ∨
  (∃ i u v, us !! i = Some u ∧ us !! S i = Some v ∧
            (0 < sampling_rate u)%Z ∧ sampling_rate u ≠ sampling_rate v ∧
            e = InconsistentSampleRateError v).
Proof.
  intros Hres. revert s. induction Hres as [|k u range us Hk _ IH]; intros s; [done|].
  destruct (decide ((0 < s)%Z ∧ s ≠ sampling_rate u)) as [[Hpos Hne]|Hok].
  - rewrite (worker_loop_raise _ _ _ _ _ _ _ _ u _ Hk (check_raises s u Hpos Hne)).
    intros ?; simplify_eq/=. left. by exists u.
  - rewrite (worker_loop_step _ _ _ _ _ _ _ _ u (sampling_rate u) Hk)
      by (apply check_passes; destruct (decide (s = sampling_rate u)); [by right | left; lia]).
    cbn [snd]. intros Hsome. right.
    apply IH in Hsome as [(v & Hv & Hpos & Hne & ->)|(i & u1 & u2 & H1 & H2 & Hpos & Hne & ->)].
    + by exists 0, u, v.
    + by exists (S i), u1, u2.
Qed.

End WorkerMore.

(** X6: an identifier that is not a key of the corpus makes the worker
    raise [KeyError] for it, whether or not a rate is forced: when the
    identifiers before it are processed without error, their records are
    put, nothing is put for the missing one or for those after it, and
    the queue is not closed. *)
Theorem worker_missing_key {Feature} (processor : Processor Feature)
    (corpus : Corpus) (frame_size hop_size : Z) (sr : option Z)
    (pre : list string) (us : list Utterance) (k : string) (rest : list string) :
  resolves corpus pre us →
  (worker_process_utterances_task processor pre corpus frame_size hop_size sr).2
  = None →
  k ∉ keys corpus →
  worker_process_utterances_task processor (pre ++ k :: rest) corpus
                                 frame_size hop_size sr
  = (processed processor corpus frame_size hop_size sr us, Some (KeyError k)).
Proof. intros Hres Hnone Hk. by apply loop_missing_key. Qed.

Lemma worker_missing_key_witness :
  worker_process_utterances_task Samples.tagging ["a"; "zz"; "b"] Samples.uniform3
                                 400 160 None
  = (processed Samples.tagging Samples.uniform3 400 160 None
       [Samples.utt "a" 16000],
     Some (KeyError "zz")).
Proof.
  apply (worker_missing_key Samples.tagging Samples.uniform3 400 160 None
           ["a"] [Samples.utt "a" 16000] "zz" ["b"]).
  - repeat constructor.
  - reflexivity.
  - apply (bool_decide_unpack _). by vm_compute.
Defined.

(** X7: a worker closes its end of the queue exactly when it ends
    normally; it puts one record right after each processor call, so as
    many records as calls, for a prefix of its range in the order of the
    range, and for the whole range exactly when it ends normally. *)
Theorem worker_puts_and_close {Feature} (processor : Processor Feature)
    (corpus : Corpus) (frame_size hop_size : Z) (sr : option Z)
    (range : list string) :
  let r := worker_process_utterances_task processor range corpus
                                          frame_size hop_size sr in
  (r.2 = None ↔ QueueClose ∈ r.1) ∧
  (r.2 = None ↔ length (puts r.1) = length range) ∧
  ∃ us, resolves corpus (take (length us) range) us ∧
        puts r.1 = record processor corpus frame_size hop_size sr <$> us ∧
        calls r.1 = (λ u, (u, frame_size, hop_size, sr)) <$> us ∧
        r.1 = processed processor corpus frame_size hop_size sr us
              ++ (if r.2 is None then [QueueClose] else []).
Proof.
  intros r. unfold r, worker_process_utterances_task.
  destruct (worker_loop_shape processor corpus frame_size hop_size sr (-1) range)
    as (us & Hres & Hshape).
  destruct (worker_loop processor corpus frame_size hop_size sr (-1) range)
    as [events [e|]]; cbn [fst snd] in *; destruct Hshape as [Hlen ->].
  - split_and!.
    + split; [done|]. intros Hin. by apply processed_no_close in Hin.
    + split; [done|]. rewrite puts_processed, length_fmap. lia.
    + exists us. rewrite puts_processed, calls_processed, app_nil_r. done.
  - split_and!.
    + split; [|done]. intros _. apply elem_of_app. right. left.
    + split; [|done]. intros _.
      rewrite puts_app, puts_processed, length_app, length_fmap. simpl. lia.
    + exists us. rewrite puts_app, calls_app, puts_processed, calls_processed.
      by rewrite !app_nil_r.
Qed.

(** X8: with no forced rate, a worker on identifiers of the corpus ends
    normally exactly when every utterance of its range whose rate is
    positive is followed by one of the same rate; otherwise the error it
    raises names the file of an utterance that follows one of a
    different, positive rate. *)
Theorem worker_normal_iff_adjacent {Feature} (processor : Processor Feature)
    (corpus : Corpus) (frame_size hop_size : Z)
    (range : list string) (us : list Utterance) :
  resolves corpus range us →
  let r := worker_process_utterances_task processor range corpus
                                          frame_size hop_size None in
  (r.2 = None
   ↔ ∀ i u v, us !! i = Some u → us !! S i = Some v →
              (sampling_rate u ≤ 0)%Z ∨ sampling_rate u = sampling_rate v) ∧
  (∀ e, r.2 = Some e →
        ∃ i u v, us !! i = Some u ∧ us !! S i = Some v ∧
                 (0 < sampling_rate u)%Z ∧ sampling_rate u ≠ sampling_rate v ∧
                 e = InconsistentSampleRateError v).
Proof.
  intros Hres r. unfold r, worker_process_utterances_task. split.
  - rewrite (loop_None_iff _ _ _ _ (-1)%Z range us Hres). split.
    + by intros [_ Hadj].
    + intros Hadj. split; [|done]. intros u _. left. lia.
  - intros e He.
    apply (loop_Some_inv _ _ _ _ (-1)%Z range us e Hres) in He
      as [(u & _ & Hpos & _)|Hex]; [lia | done].
Qed.

Lemma worker_normal_iff_adjacent_witness :
  ∃ i u v,
    [Samples.utt "a" 16000; Samples.utt "b" 8000; Samples.utt "c" 16000] !! i
    = Some u ∧
    [Samples.utt "a" 16000; Samples.utt "b" 8000; Samples.utt "c" 16000] !! S i
    = Some v ∧
    (0 < sampling_rate u)%Z ∧ sampling_rate u ≠ sampling_rate v ∧
    InconsistentSampleRateError (Samples.utt "b" 8000)
    = InconsistentSampleRateError v.
Proof.
  refine (proj2 (worker_normal_iff_adjacent Samples.tagging Samples.mixed3
                   400 160 ["a"; "b"; "c"]
                   [Samples.utt "a" 16000; Samples.utt "b" 8000;
                    Samples.utt "c" 16000] _)
                (InconsistentSampleRateError (Samples.utt "b" 8000)) _).
  - repeat constructor.
  - reflexivity.
Defined.

(** ** More on the partition *)

Lemma elem_of_concat_lookup {A} (l : list (list A)) (j : nat) (b : list A) (x : A) :
  l !! j = Some b → x ∈ b → x ∈ concat l.
Proof.
  revert j. induction l as [|a l IH]; intros [|j] Hj Hx; simplify_eq/=.
  - apply elem_of_app. by left.
  - apply elem_of_app. right. by eapply IH.
Qed.

Lemma concat_NoDup_lookup {A} (l : list (list A)) (i j : nat) (a b : list A) (x : A) :
  NoDup (concat l) →
  l !! i = Some a → l !! j = Some b → x ∈ a → x ∈ b → i = j.
Proof.
  revert i j. induction l as [|a0 l IH]; intros i j Hnd Hi Hj Ha Hb; [done|].
  simpl in Hnd. apply NoDup_app in Hnd as (_ & Hsep & Hnd).
  destruct i as [|i], j as [|j]; simplify_eq/=.
  - done.
  - destruct (Hsep x Ha). by eapply elem_of_concat_lookup.
  - destruct (Hsep x Hb). by eapply elem_of_concat_lookup.
  - f_equal. by eapply IH.
Qed.

Lemma elem_of_concat_inv {A} (l : list (list A)) (x : A) :
  x ∈ concat l → ∃ i a, l !! i = Some a ∧ x ∈ a.
Proof.
  induction l as [|a l IH]; simpl; [by intros ?%elem_of_nil|].
  intros [Hx|Hx]%elem_of_app.
  - by exists 0, a.
  - destruct (IH Hx) as (i & b & Hi & Hb). by exists (S i), b.
Qed.

(** X9: with [W >= 2] workers each of the first [W-1] ranges has
    [floor(N/W)] identifiers and the last has [floor(N/W) + N mod W],
    so the last worker can get up to [W-1] identifiers more than the
    others; with fewer identifiers than workers the first [W-1] workers
    get nothing and the last one gets every identifier. *)
Theorem partition_sizes (utterance_ids : list string) (num_workers : Z) :
  (2 ≤ num_workers)%Z →
  let N := length utterance_ids in
  let W := Z.to_nat num_workers in
  length <$> worker_ranges utterance_ids num_workers
  = replicate (W - 1) (N / W) ++ [N / W + N `mod` W] ∧
  (N < W →
   worker_ranges utterance_ids num_workers
   = replicate (W - 1) [] ++ [utterance_ids]).
Proof.
  intros HW N W.
  assert (HWn : 2 ≤ W) by (unfold W; lia).
  assert (HZ : num_workers = Z.of_nat W) by (unfold W; lia).
  pose proof (chunks_within utterance_ids W) as Hin. fold N in Hin.
  pose proof (Nat.div_mod_eq N W) as Hdm.
  rewrite HZ, worker_ranges_chunks by done. fold N. split.
  - rewrite fmap_app, <- list_fmap_compose. f_equal.
    + rewrite (const_fmap _ _ (N / W)).
      * by rewrite length_seq.
      * intros j i [-> Hi]%lookup_seq. simpl.
        rewrite span_length by (fold N; nia). lia.
    + simpl. rewrite span_length by (fold N; lia). f_equal. nia.
  - intros Hlt. rewrite (Nat.div_small N W) by done. f_equal.
    + rewrite (const_fmap _ _ []); [by rewrite length_seq|].
      intros j i _. by rewrite !Nat.mul_0_r.
    + rewrite Nat.mul_0_r. unfold N. rewrite span_to_end. done.
Qed.

Lemma partition_sizes_witness :
  length <$> worker_ranges Samples.ten_ids 4 = [2; 2; 2; 4] ∧
  worker_ranges ["a"; "b"] 3 = [[]; []; ["a"; "b"]].
Proof.
  split.
  - exact (proj1 (partition_sizes Samples.ten_ids 4 ltac:(lia))).
  - apply (proj2 (partition_sizes ["a"; "b"] 3 ltac:(lia))). simpl. lia.
Defined.

(** X10: when the identifiers are pairwise different, as the keys of a
    dictionary are, every identifier is in exactly one range: it is in
    some range, and two ranges that share an identifier are the same
    range. *)
Theorem identifier_in_one_range (utterance_ids : list string) (num_workers : Z)
    (k : string) :
  (2 ≤ num_workers)%Z →
  NoDup utterance_ids →
  k ∈ utterance_ids →
  ∃ i range,
    worker_ranges utterance_ids num_workers !! i = Some range ∧ k ∈ range ∧
    ∀ j range', worker_ranges utterance_ids num_workers !! j = Some range' →
                k ∈ range' → j = i.
Proof.
  intros HW Hnd Hk.
  assert (Hcat : concat (worker_ranges utterance_ids num_workers) = utterance_ids).
  { rewrite <- (Z2Nat.id num_workers) by lia. apply worker_ranges_concat. lia. }
  rewrite <- Hcat in Hk, Hnd.
  destruct (elem_of_concat_inv _ _ Hk) as (i & range & Hi & Hin).
  exists i, range. split_and!; [done | done |].
  intros j range' Hj Hin'. by eapply (concat_NoDup_lookup _ j i range' range k).
Qed.

Lemma identifier_in_one_range_witness :
  ∃ i range,
    worker_ranges Samples.ten_ids 3 !! i = Some range ∧ "u4" ∈ range ∧
    ∀ j range', worker_ranges Samples.ten_ids 3 !! j = Some range' →
                "u4" ∈ range' → j = i.
Proof.
  apply (identifier_in_one_range Samples.ten_ids 3 "u4").
  - lia.
  - apply (bool_decide_unpack _). by vm_compute.
  - apply (bool_decide_unpack _). by vm_compute.
Defined.

(** ** More on the container *)

Lemma list_to_map_size_le {V} (l : list (string * V)) :
  size (list_to_map l : gmap string V) ≤ length l.
Proof.
  induction l as [|[k v] l IH].
  { change (size (∅ : gmap string V) ≤ 0). by rewrite map_size_empty. }
  rewrite list_to_map_cons, map_size_insert. cbn [length].
  destruct (list_to_map l !! k); unfold id; lia.
Qed.

Section Written.
Context {Feature : Type}.
Variable processor : Processor Feature.
Variable corpus : Corpus.
Variable output_path : string.
Variables num_workers frame_size hop_size : Z.
Variable sr : option Z.

(** What a returning run wrote: the records of all utterances of the
    corpus, in some order. *)
Lemma run_written sched w c :
  NoDup (keys corpus) →
  run processor corpus output_path num_workers frame_size hop_size sr sched
  = (w, inr c) →
  ∃ rs rate,
    rs ≡ₚ record processor corpus frame_size hop_size sr <$> (utterances corpus).*2 ∧
    first_sampling_rate corpus (keys corpus) sr = inr rate ∧
    c = containers.mkFeatureContainer output_path false
          (list_to_map (reverse rs))
          (Some (frame_transform processor frame_size hop_size).1)
          (Some (frame_transform processor frame_size hop_size).2)
          (Some (py_or sr rate)).
Proof.
  intros Hnd Hrun.
  apply run_returned in Hrun
    as (HW & rs & rate & Hlen & _ & Hperm & Hrate & _ & Hc).
  rewrite runs_outputs in Hperm.
  assert (Hcat : concat (worker_ranges (keys corpus) num_workers) = keys corpus).
  { rewrite <- (Z2Nat.id num_workers) by lia. apply worker_ranges_concat. lia. }
  assert (Hfull : Forall (λ r, length r ≤ length (puts (worker_process_utterances_task processor r corpus
                                       frame_size hop_size sr).1))
                         (worker_ranges (keys corpus) num_workers)).
  { apply every_part_full; [intros r; apply task_puts_length|].
    rewrite Hcat, Hperm, length_app. lia. }
  apply full_ranges in Hfull as [_ (us & Hus & Hrecords0)].
  assert (Hrecords : concat ((λ r, puts (worker_process_utterances_task processor r corpus
                                       frame_size hop_size sr).1)
                               <$> worker_ranges (keys corpus) num_workers)
                     = record processor corpus frame_size hop_size sr <$> us)
    by exact Hrecords0.
  clear Hrecords0. rewrite Hcat in Hus.
  pose proof (resolves_fun _ _ _ _ Hus (resolves_all corpus Hnd)) as ->.
  assert (Hrest : concat (pending w) = []).
  { apply nil_length_inv. apply (f_equal length) in Hrecords.
    rewrite Hperm, length_app, !length_fmap in Hrecords.
    unfold keys in Hlen. rewrite length_fmap in Hlen. lia. }
  rewrite Hrest, app_nil_r, Hrecords in Hperm.
  exists rs, rate. split_and!; [done | done |].
  by rewrite Hc, foldl_insert_list_to_map.
Qed.

End Written.

(** X11: the container a run returns does not depend on the order in
    which the records arrive: for a corpus that files every utterance
    under its own [idx], two returning runs on the same arguments, under
    any two schedules, return the same container. *)
Theorem container_independent_of_arrival {Feature} (processor : Processor Feature)
    (corpus : Corpus) (output_path : string) (num_workers frame_size hop_size : Z)
    (sr : option Z) (sched1 sched2 : list nat) (w1 w2 : World Feature)
    (c1 c2 : containers.FeatureContainer Feature) :
  corpus_wf corpus →
  run processor corpus output_path num_workers frame_size hop_size sr sched1
  = (w1, inr c1) →
  run processor corpus output_path num_workers frame_size hop_size sr sched2
  = (w2, inr c2) →
  c1 = c2.
Proof.
  intros [Hnd Hidx] H1 H2.
  apply run_written in H1 as (rs1 & rate1 & Hp1 & Hr1 & ->); [|done].
  apply run_written in H2 as (rs2 & rate2 & Hp2 & Hr2 & ->); [|done].
  assert (rate1 = rate2) as -> by congruence.
  f_equal. apply list_to_map_proper.
  - rewrite reverse_Permutation, Hp1, record_fst.
    rewrite (resolves_idx corpus (keys corpus)); [done | done |].
    by apply resolves_all.
  - by rewrite !reverse_Permutation, Hp1, Hp2.
Qed.

Lemma container_independent_of_arrival_witness :
  MoreSamples.container_of Samples.uniform3 None [1; 1; 0]
  = MoreSamples.container_of Samples.uniform3 None [0; 1; 1].
Proof.
  apply (container_independent_of_arrival Samples.tagging Samples.uniform3
           "out.hdf5" 2 400 160 None [1; 1; 0] [0; 1; 1]
           (MoreSamples.run_of Samples.uniform3 None [1; 1; 0]).1
           (MoreSamples.run_of Samples.uniform3 None [0; 1; 1]).1).
  - exact uniform3_wf.
  - by vm_compute.
  - by vm_compute.
Defined.

(** X12: the records are keyed by the [idx] of the utterance, not by the
    key under which the corpus files it: the keys of the container a run
    returns are the [idx] values of the utterances of the corpus, so the
    container has at most [N] entries, and fewer when two utterances
    carry the same [idx]. *)
Theorem container_keyed_by_idx {Feature} (processor : Processor Feature)
    (corpus : Corpus) (output_path : string) (num_workers frame_size hop_size : Z)
    (sr : option Z) (sched : list nat) (w : World Feature)
    (c : containers.FeatureContainer Feature) :
  NoDup (keys corpus) →
  run processor corpus output_path num_workers frame_size hop_size sr sched
  = (w, inr c) →
  dom (containers.entries c) = list_to_set (idx <$> (utterances corpus).*2) ∧
  size (containers.entries c) ≤ length (keys corpus) ∧
  (size (containers.entries c) = length (keys corpus)
   ↔ NoDup (idx <$> (utterances corpus).*2)).
Proof.
  intros Hnd Hrun.
  apply run_written in Hrun as (rs & rate & Hperm & _ & ->); [|done].
  cbn [containers.entries].
  assert (Hkeys : (reverse rs).*1 ≡ₚ idx <$> (utterances corpus).*2).
  { by rewrite reverse_Permutation, Hperm, record_fst. }
  assert (Hlen : length (reverse rs) = length (keys corpus)).
  { rewrite length_reverse, Hperm. unfold keys. by rewrite !length_fmap. }
  assert (Hdom : dom (list_to_map (reverse rs) : gmap string Feature)
                 = list_to_set (idx <$> (utterances corpus).*2)).
  { by rewrite dom_list_to_map_L, Hkeys. }
  split_and!.
  - done.
  - rewrite <- Hlen. apply list_to_map_size_le.
  - rewrite <- Hkeys. split.
    + intros Hsize. rewrite <- Hlen in Hsize.
      assert (Hgen : ∀ l : list (string * Feature),
                size (list_to_map l : gmap string Feature) = length l → NoDup l.*1).
      { clear. induction l as [|[k v] l IH]; [constructor|].
        rewrite list_to_map_cons, map_size_insert. cbn [length fmap list_fmap fst].
        pose proof (list_to_map_size_le l).
        destruct (list_to_map l !! k) eqn:Hk; unfold id; [lia|].
        intros Hs. constructor; [|apply IH; lia].
        by apply not_elem_of_list_to_map. }
      by apply Hgen.
    + intros Hnodup. rewrite <- Hlen. by apply map_size_list_to_map.
Qed.

Lemma container_keyed_by_idx_witness :
  dom (containers.entries (MoreSamples.container_of MoreSamples.shared_idx None [0; 1]))
  = list_to_set ["a"; "a"] ∧
  size (containers.entries (MoreSamples.container_of MoreSamples.shared_idx None [0; 1]))
  ≤ 2.
Proof.
  pose proof (container_keyed_by_idx Samples.tagging MoreSamples.shared_idx
                "out.hdf5" 2 400 160 None [0; 1]
                (MoreSamples.run_of MoreSamples.shared_idx None [0; 1]).1
                (MoreSamples.container_of MoreSamples.shared_idx None [0; 1]))
    as H.
  destruct H as (Hdom & Hsize & _).
  - apply (bool_decide_unpack _). by vm_compute.
  - by vm_compute.
  - split; [exact Hdom | exact Hsize].
Defined.

(** ** More on the trace *)

Section TraceMore.
Context {Feature : Type}.

Lemma starts_only_Start utterance_ids num_workers (e : Event Feature) :
  e ∈ starts utterance_ids num_workers → ∃ i range, e = Start i range.
Proof.
  unfold starts. intros (i & -> & _)%list_elem_of_fmap. by eexists _, _.
Qed.

Lemma Sets_only_Set (rs : list (string * Feature)) (e : Event Feature) :
  e ∈ (λ r, Set_ r.1 r.2) <$> rs → ∃ k v, e = Set_ k v.
Proof. intros (r & -> & _)%list_elem_of_fmap. by eexists _, _. Qed.

Lemma unfinished_trace_no_Close utterance_ids num_workers output_path
    (rs : list (string * Feature)) (e : Event Feature) :
  e ∈ starts utterance_ids num_workers
      ++ [Create output_path; Open] ++ ((λ r, Set_ r.1 r.2) <$> rs) →
  e ≠ Close ∧ ∀ i, e ≠ Join i.
Proof.
  intros [(i & range & ->)%starts_only_Start|Hin]%elem_of_app; [by split|].
  cbn [app] in Hin.
  apply elem_of_cons in Hin as [->|Hin]; [by split|].
  apply elem_of_cons in Hin as [->|(k & v & ->)%Sets_only_Set]; by split.
Qed.

End TraceMore.

(** X13: with at least two workers, whatever the outcome of the run,
    the parent first starts all the workers, each on its range and in
    the order of the ranges, and only then creates and opens the
    container; and the container is closed, and the workers are joined,
    exactly in the runs that return: a run that blocks or raises leaves
    the container open and the workers unjoined. *)
Theorem container_closed_iff_returned {Feature} (processor : Processor Feature)
    (corpus : Corpus) (output_path : string) (num_workers frame_size hop_size : Z)
    (sr : option Z) (sched : list nat) :
  (2 ≤ num_workers)%Z →
  let r := run processor corpus output_path num_workers frame_size hop_size
               sr sched in
  (∃ t, trace r.1 = starts (keys corpus) num_workers
                    ++ [Create output_path; Open] ++ t) ∧
  (Close ∈ trace r.1 ↔ ∃ c, r.2 = inr c) ∧
  (Join 0 ∈ trace r.1 ↔ ∃ c, r.2 = inr c).
Proof.
  intros HW r.
  destruct (run_cases processor corpus output_path num_workers frame_size
              hop_size sr sched HW)
    as [[c Hc]|[[Hb (rs & _ & _ & Ht)]|(He & _ & _ & Ht)]]; fold r in Hc || fold r in Ht.
  - assert (Hrun : run processor corpus output_path num_workers frame_size
                       hop_size sr sched = (r.1, inr c)).
    { fold r. destruct r as [w o]. simpl in *. by rewrite Hc. }
    apply run_returned in Hrun as (_ & rs & rate & _ & _ & _ & _ & Ht & _).
    rewrite Ht. split_and!.
    + by eexists.
    + split; [by eexists|]. intros _.
      rewrite !elem_of_app. right. right. right. left.
      rewrite !elem_of_cons. auto.
    + split; [by eexists|]. intros _.
      rewrite !elem_of_app. do 4 right.
      apply list_elem_of_fmap. exists 0%Z. split; [done|].
      unfold py_range. apply list_elem_of_fmap. exists 0. split; [done|].
      apply elem_of_seq. lia.
  - fold r in Hb. rewrite Ht. split_and!.
    + by eexists.
    + split.
      * intros Hin. by apply unfinished_trace_no_Close in Hin as [? _].
      * intros [c Hc]. by rewrite Hb in Hc.
    + split.
      * intros Hin. apply unfinished_trace_no_Close in Hin as [_ Hj].
        by destruct (Hj 0%Z).
      * intros [c Hc]. by rewrite Hb in Hc.
  - fold r in He. rewrite Ht. split_and!.
    + exists []. by rewrite app_nil_r.
    + split.
      * intros Hin.
        by apply (unfinished_trace_no_Close _ _ _ []) in Hin as [? _].
      * intros [c Hc]. by rewrite He in Hc.
    + split.
      * intros Hin.
        apply (unfinished_trace_no_Close _ _ _ []) in Hin as [_ Hj].
        by destruct (Hj 0%Z).
      * intros [c Hc]. by rewrite He in Hc.
Qed.

Lemma container_closed_iff_returned_witness :
  ¬ Close ∈ trace (run Samples.tagging Samples.mixed3 "out.hdf5" 2 400 160
                       None [1; 1; 0]).1.
Proof.
  intros Hin.
  destruct (container_closed_iff_returned Samples.tagging Samples.mixed3
              "out.hdf5" 2 400 160 None [1; 1; 0] ltac:(lia))
    as (_ & [Hclose _] & _).
  destruct (Hclose Hin) as [c Hc]. discriminate Hc.
Defined.
